(** * The share builder of go-square ([shares/share_builder.go])

    A shallow embedding of the [Builder] type and of its methods, followed by
    the properties of the builder that the specification states.

    Conventions of the embedding:
    - a Go [byte] is a [Z] (in [0, 256) for a well-formed byte), a [uint32]
      a [Z] reduced modulo [2^32] where the code converts, an [int] a [Z]
      (lengths are far below [2^63], so no wrap-around is written for them);
    - a Go slice is its visible elements together with the rest of its
      backing array up to the capacity, because a slice expression [s[i:j]]
      may reach up to [cap(s)];
    - a run-time panic is [None]; a Go [error] result is an [option error],
      [None] being [nil]. *)

From Stdlib Require Import ZArith Lia Bool.
From stdpp Require Import base option list.

Abbreviation byte := Z (only parsing).

(** ** Go slices of bytes *)

(** The growth policy of [append] when the capacity does not suffice is left
    to the Go runtime: [growslice oldcap needed] is the new capacity. *)
Class GoRuntime := { growslice : nat -> nat -> nat }.

Record slice := Slice {
  elems : list byte;   (* s[0], ..., s[len(s)-1] *)
  spare : list byte    (* the backing array from len(s) up to cap(s) *)
}.

Definition len (s : slice) : nat := length (elems s).
Definition cap (s : slice) : nat := length (elems s) + length (spare s).

(** [make([]byte, n, c)] *)
Definition make (n c : nat) : slice :=
  Slice (replicate n 0%Z) (replicate (c - n) 0%Z).

(** [append(s, xs...)]: in place when the capacity suffices, otherwise into
    a fresh zeroed array. *)
Definition append `{GoRuntime} (s : slice) (xs : list byte) : slice :=
  if decide (length xs <= length (spare s)) then
    Slice (elems s ++ xs) (drop (length xs) (spare s))
  else
    let needed := len s + length xs in
    Slice (elems s ++ xs) (replicate (growslice (cap s) needed - needed) 0%Z).

(** [s[i:j]] read as a list of bytes: panics unless [i <= j <= cap(s)]. *)
Definition reslice (s : slice) (i j : nat) : option (list byte) :=
  if decide (i <= j /\ j <= cap s) then
    Some (take (j - i) (drop i (elems s ++ spare s)))
  else None.

(** [s[i] = x]: panics unless [i < len(s)]. *)
Definition store (s : slice) (i : nat) (x : byte) : option slice :=
  if decide (i < len s) then Some (Slice (<[i := x]> (elems s)) (spare s))
  else None.

(** [for i := 0; i < n; i++ { dst[k+i] = src[i] }], started at index [i]. *)
Fixpoint store_loop (n i k : nat) (src : list byte) (dst : slice)
  : option slice :=
  match n with
  | O => Some dst
  | S n' =>
      x ← src !! i;
      dst' ← store dst (k + i) x;
      store_loop n' (S i) k src dst'
  end.

(** The slice expressions of [AddData] take an [int] bound on the caller's
    data, of which only the visible elements are known: [l[:n]] and [l[n:]]
    panic on a negative bound or one beyond the data. *)
Definition slice_to (l : list byte) (n : Z) : option (list byte) :=
  if decide (0 <= n <= Z.of_nat (length l))%Z then Some (take (Z.to_nat n) l)
  else None.

Definition slice_from (l : list byte) (n : Z) : option (list byte) :=
  if decide (0 <= n <= Z.of_nat (length l))%Z then Some (drop (Z.to_nat n) l)
  else None.

(** ** [encoding/binary]: [BigEndian.PutUint32] and [BigEndian.Uint32] *)

Definition uint32 (n : Z) : Z := (n mod 2 ^ 32)%Z.

Definition be32 (v : Z) : list byte :=
  [ (Z.shiftr v 24 mod 256)%Z; (Z.shiftr v 16 mod 256)%Z;
    (Z.shiftr v 8 mod 256)%Z; (v mod 256)%Z ].

(** [binary.BigEndian.PutUint32(buf, v)]: panics when [buf] is shorter than
    four bytes, otherwise overwrites its first four bytes. *)
Definition PutUint32 (buf : list byte) (v : Z) : option (list byte) :=
  if decide (4 <= length buf) then Some (be32 v ++ drop 4 buf) else None.

(** The value of a byte string read as a big-endian unsigned integer. *)
Definition BigEndianValue (bs : list byte) : Z :=
  foldl (fun acc b => (acc * 256 + b)%Z) 0%Z bs.

(** ** Errors *)

Inductive error :=
| ErrNotCompactShare          (* "this is not a compact share" *)
| ErrNilBuilder               (* "the builder object is not initialized (is nil)" *)
| ErrNotFirstShare            (* "not the first share" *)
| ErrInvalidVersion           (* returned by NewInfoByte *)
| ErrMalformedReservedBytes   (* returned by ParseReservedBytes *)
| ErrByteIndex.               (* returned by NewReservedBytes *)

(** ** The collaborators of the builder *)

(** Package [namespace]: the type is opaque to the builder, which only uses
    its zero value, its size constant, its serialization and its two
    classification queries. *)
Class NamespacePkg := {
  Namespace : Type;
  NamespaceZero : Namespace;   (* namespace.Namespace{} *)
  NamespaceSize : nat;
  Bytes : Namespace -> list byte;
  IsTx : Namespace -> bool;
  IsPayForBlob : Namespace -> bool
}.

(** Constants and tests of package [shares] that the builder consults and
    that are declared outside [share_builder.go]. The specification gives no
    value for [ShareSize] and for the largest share version, and does not say
    which reserved-bytes regions fail to decode nor which offsets
    [NewReservedBytes] refuses: they are parameters. *)
Class SharesPkg := {
  ShareSize : nat;
  MaxShareVersion : Z;
  reservedBytesDecodable : list byte -> bool;
  byteIndexEncodable : Z -> bool
}.

(** Modelled from the spec: the constant [ShareInfoBytes] is declared outside
    [share_builder.go]; the layout table gives the info byte one byte. *)
Definition ShareInfoBytes : nat := 1.

(** Modelled from the spec: the constant [SequenceLenBytes] is declared
    outside [share_builder.go]; the sequence length is a four-byte big-endian
    unsigned integer, which the builder writes with [PutUint32]. *)
Definition SequenceLenBytes : nat := 4.

(** Modelled from the spec: the constant [CompactShareReservedBytes] is
    declared outside [share_builder.go]; the reserved bytes are a four-byte
    big-endian unsigned integer, which the builder passes as a [uint32]. *)
Definition CompactShareReservedBytes : nat := 4.

Section Builder.
Context `{GoRuntime} `{NamespacePkg} `{SharesPkg}.

(** Modelled from the spec: [NewInfoByte] is declared outside
    [share_builder.go]. The info byte holds the share version in its high
    bits and the first-share flag in bit 0; a version beyond the largest
    encodable one is refused with [InvalidVersion]. *)
Definition NewInfoByte (version : Z) (isSequenceStart : bool) : error + byte :=
  if (MaxShareVersion <? version)%Z then inl ErrInvalidVersion
  else inr (Z.lor (Z.shiftl version 1) (Z.b2z isSequenceStart) mod 256)%Z.

(** Modelled from the spec: [NewReservedBytes] is declared outside
    [share_builder.go]. It encodes the offset as a fixed-width big-endian
    unsigned integer, or refuses it. *)
Definition NewReservedBytes (byteIndex : Z) : error + list byte :=
  if byteIndexEncodable byteIndex then inr (be32 byteIndex)
  else inl ErrByteIndex.

(** Modelled from the spec: [ParseReservedBytes] is declared outside
    [share_builder.go]. It reads the region as a big-endian unsigned integer,
    or fails with a decode error. *)
Definition ParseReservedBytes (reservedBytes : list byte) : error + Z :=
  if reservedBytesDecodable reservedBytes then inr (BigEndianValue reservedBytes)
  else inl ErrMalformedReservedBytes.

(** Modelled from the spec: [zeroPadIfNecessary] is declared outside
    [share_builder.go]. It appends zero bytes until the buffer has exactly
    [width] bytes and returns how many it added, none when the buffer is
    already full. The specification leaves the over-full buffer undefined;
    here it is returned as it is. *)
Definition zeroPadIfNecessary (share : slice) (width : nat) : slice * Z :=
  if decide (width <= len share) then (share, 0%Z)
  else
    let missingBytes := width - len share in
    (append share (replicate missingBytes 0%Z), Z.of_nat missingBytes).

(** ** The builder *)

Record Builder := mkBuilder {
  namespace : Namespace;
  shareVersion : Z;          (* uint8 *)
  isFirstShare : bool;
  isCompactShare : bool;
  rawShareData : slice
}.

Definition set_rawShareData (b : Builder) (s : slice) : Builder :=
  {| namespace := namespace b; shareVersion := shareVersion b;
     isFirstShare := isFirstShare b; isCompactShare := isCompactShare b;
     rawShareData := s |}.

(** [NewEmptyBuilder] leaves every field but the buffer at its zero value. *)
Definition NewEmptyBuilder : Builder :=
  {| namespace := NamespaceZero; shareVersion := 0; isFirstShare := false;
     isCompactShare := false; rawShareData := make 0 ShareSize |}.

(** The package function [isCompactShare]; the field of [Builder] has taken
    the name. *)
Definition isCompactShare_ns (ns : Namespace) : bool :=
  IsTx ns || IsPayForBlob ns.

Definition prepareCompactShare (b : Builder) : error + Builder :=
  let shareData := make 0 ShareSize in
  match NewInfoByte (shareVersion b) (isFirstShare b) with
  | inl err => inl err
  | inr infoByte =>
      let placeholderSequenceLen := replicate SequenceLenBytes 0%Z in
      let placeholderReservedBytes := replicate CompactShareReservedBytes 0%Z in
      let shareData := append shareData (Bytes (namespace b)) in
      let shareData := append shareData [infoByte] in
      let shareData :=
        if isFirstShare b then append shareData placeholderSequenceLen
        else shareData in
      let shareData := append shareData placeholderReservedBytes in
      inr (set_rawShareData b shareData)
  end.

Definition prepareSparseShare (b : Builder) : error + Builder :=
  let shareData := make 0 ShareSize in
  match NewInfoByte (shareVersion b) (isFirstShare b) with
  | inl err => inl err
  | inr infoByte =>
      let placeholderSequenceLen := replicate SequenceLenBytes 0%Z in
      let shareData := append shareData (Bytes (namespace b)) in
      let shareData := append shareData [infoByte] in
      let shareData :=
        if isFirstShare b then append shareData placeholderSequenceLen
        else shareData in
      inr (set_rawShareData b shareData)
  end.

Definition init (b : Builder) : error + Builder :=
  if isCompactShare b then prepareCompactShare b else prepareSparseShare b.

(** The zero value of the buffer field is the nil slice. *)
Definition NewBuilder (ns : Namespace) (shareVersion : Z) (isFirstShare : bool)
  : error + Builder :=
  init {| namespace := ns; shareVersion := shareVersion;
          isFirstShare := isFirstShare;
          isCompactShare := isCompactShare_ns ns;
          rawShareData := Slice [] [] |}.

Definition AvailableBytes (b : Builder) : Z :=
  (Z.of_nat ShareSize - Z.of_nat (len (rawShareData b)))%Z.

Definition ImportRawShare (b : Builder) (rawBytes : slice) : Builder :=
  set_rawShareData b rawBytes.

(** [AddData] returns the leftover and the updated builder; the nil leftover
    of the first branch is the empty list. *)
Definition AddData (b : Builder) (rawData : list byte)
  : option (list byte * Builder) :=
  let pendingLeft := (Z.of_nat ShareSize - Z.of_nat (len (rawShareData b)))%Z in
  if decide (Z.of_nat (length rawData) <= pendingLeft)%Z then
    Some ([], set_rawShareData b (append (rawShareData b) rawData))
  else
    chunk ← slice_to rawData pendingLeft;
    let b' := set_rawShareData b (append (rawShareData b) chunk) in
    rawDataLeftOver ← slice_from rawData pendingLeft;
    Some (rawDataLeftOver, b').

Definition IsEmptyShare (b : Builder) : bool :=
  let expectedLen := NamespaceSize + ShareInfoBytes in
  let expectedLen :=
    if isCompactShare b then expectedLen + CompactShareReservedBytes
    else expectedLen in
  let expectedLen :=
    if isFirstShare b then expectedLen + SequenceLenBytes else expectedLen in
  bool_decide (len (rawShareData b) = expectedLen).

Definition ZeroPadIfNecessary (b : Builder) : Z * Builder :=
  let '(padded, bytesOfPadding) := zeroPadIfNecessary (rawShareData b) ShareSize in
  (bytesOfPadding, set_rawShareData b padded).

Definition indexOfReservedBytes (b : Builder) : nat :=
  if isFirstShare b then NamespaceSize + ShareInfoBytes + SequenceLenBytes
  else NamespaceSize + ShareInfoBytes.

Definition indexOfInfoBytes (b : Builder) : nat := NamespaceSize.

Definition isEmptyReservedBytes (b : Builder) : option (error + bool) :=
  let indexOfReservedBytes := indexOfReservedBytes b in
  region ← reslice (rawShareData b) indexOfReservedBytes
                   (indexOfReservedBytes + CompactShareReservedBytes);
  match ParseReservedBytes region with
  | inl err => Some (inl err)
  | inr reservedBytes => Some (inr (reservedBytes =? 0)%Z)
  end.

Definition MaybeWriteReservedBytes (b : Builder)
  : option (option error * Builder) :=
  if negb (isCompactShare b) then Some (Some ErrNotCompactShare, b)
  else
    r ← isEmptyReservedBytes b;
    match r with
    | inl err => Some (Some err, b)
    | inr false => Some (None, b)
    | inr true =>
        let byteIndexOfNextUnit := len (rawShareData b) in
        match NewReservedBytes (uint32 (Z.of_nat byteIndexOfNextUnit)) with
        | inl err => Some (Some err, b)
        | inr reservedBytes =>
            raw ← store_loop CompactShareReservedBytes 0
                    (indexOfReservedBytes b) reservedBytes (rawShareData b);
            Some (None, set_rawShareData b raw)
        end
    end.

(** The receiver of [WriteSequenceLen] may be the nil pointer, [None]. *)
Definition WriteSequenceLen (recv : option Builder) (sequenceLen : Z)
  : option (option error * option Builder) :=
  match recv with
  | None => Some (Some ErrNilBuilder, None)
  | Some b =>
      if negb (isFirstShare b) then Some (Some ErrNotFirstShare, Some b)
      else
        sequenceLenBuf ← PutUint32 (replicate SequenceLenBytes 0%Z) sequenceLen;
        raw ← store_loop SequenceLenBytes 0 (NamespaceSize + ShareInfoBytes)
                sequenceLenBuf (rawShareData b);
        Some (None, Some (set_rawShareData b raw))
  end.

Definition FlipSequenceStart (b : Builder) : option Builder :=
  let infoByteIndex := indexOfInfoBytes b in
  x ← elems (rawShareData b) !! infoByteIndex;
  raw ← store (rawShareData b) infoByteIndex (Z.lxor x 1);
  Some (set_rawShareData b raw).

(** ** Sequences of builder operations *)

Inductive op :=
| OpAddData (rawData : list byte)
| OpImportRawShare (rawBytes : slice)
| OpZeroPadIfNecessary
| OpMaybeWriteReservedBytes
| OpWriteSequenceLen (sequenceLen : Z)
| OpFlipSequenceStart.

(** One call on the builder; [None] when the call panics. *)
Definition step (b : Builder) (o : op) : option Builder :=
  match o with
  | OpAddData rawData => snd <$> AddData b rawData
  | OpImportRawShare rawBytes => Some (ImportRawShare b rawBytes)
  | OpZeroPadIfNecessary => Some (snd (ZeroPadIfNecessary b))
  | OpMaybeWriteReservedBytes => snd <$> MaybeWriteReservedBytes b
  | OpWriteSequenceLen n =>
      r ← WriteSequenceLen (Some b) n; snd r
  | OpFlipSequenceStart => FlipSequenceStart b
  end.

Fixpoint run (b : Builder) (ops : list op) : option Builder :=
  match ops with
  | [] => Some b
  | o :: ops' => b' ← step b o; run b' ops'
  end.

(** An operation that does not import more than a share's worth of bytes. *)
Definition imports_fit (o : op) : Prop :=
  match o with
  | OpImportRawShare rawBytes => len rawBytes <= ShareSize
  | _ => True
  end.

(** The reserved-bytes region of the buffer, and the builder whose region
    has been overwritten: the vocabulary in which the effect of
    [MaybeWriteReservedBytes] is stated. *)
Definition reservedRegion (b : Builder) : list byte :=
  take CompactShareReservedBytes
       (drop (indexOfReservedBytes b) (elems (rawShareData b))).

Definition withReservedBytes (b : Builder) (bs : list byte) : Builder :=
  let i := indexOfReservedBytes b in
  set_rawShareData b
    (Slice (take i (elems (rawShareData b)) ++ bs
              ++ drop (i + CompactShareReservedBytes) (elems (rawShareData b)))
           (spare (rawShareData b))).

(** The sequence-length field of the buffer, and the builder whose field has
    been overwritten: the vocabulary in which the effect of
    [WriteSequenceLen] is stated. *)
Definition sequenceLenField (b : Builder) : list byte :=
  take SequenceLenBytes
       (drop (NamespaceSize + ShareInfoBytes) (elems (rawShareData b))).

Definition withSequenceLen (b : Builder) (bs : list byte) : Builder :=
  let i := NamespaceSize + ShareInfoBytes in
  set_rawShareData b
    (Slice (take i (elems (rawShareData b)) ++ bs
              ++ drop (i + SequenceLenBytes) (elems (rawShareData b)))
           (spare (rawShareData b))).

(** The fields of a builder other than its buffer. *)
Definition fields (b : Builder) : Namespace * Z * bool * bool :=
  (namespace b, shareVersion b, isFirstShare b, isCompactShare b).

(** A call that writes into the header of the share. *)
Definition is_header_write (o : op) : bool :=
  match o with
  | OpMaybeWriteReservedBytes | OpWriteSequenceLen _ | OpFlipSequenceStart =>
      true
  | _ => false
  end.

(** A call that replaces the buffer. *)
Definition is_import (o : op) : bool :=
  match o with
  | OpImportRawShare _ => true
  | _ => false
  end.

End Builder.

(** ** A concrete instance: the Celestia share format

    512-byte shares, 29-byte namespaces (one version byte and 28 identifier
    bytes), share versions up to 127, reserved-bytes offsets below the share
    size, and an [append] that doubles the capacity. The transaction
    namespace ends in 1 and the pay-for-blob namespace in 4. *)
Module Celestia.

Definition runtime : GoRuntime := {| growslice := fun oldcap needed => 2 * oldcap + needed |}.

Definition TxNamespace : list byte := replicate 28 0%Z ++ [1%Z].
Definition PayForBlobNamespace : list byte := replicate 28 0%Z ++ [4%Z].
Definition BlobNamespace : list byte := replicate 19 0%Z ++ replicate 10 7%Z.

Definition namespaces : NamespacePkg :=
  {| Namespace := list byte;
     NamespaceZero := [0%Z];
     NamespaceSize := 29;
     Bytes := fun ns => ns;
     IsTx := fun ns => bool_decide (ns = TxNamespace);
     IsPayForBlob := fun ns => bool_decide (ns = PayForBlobNamespace) |}.

Definition shares : SharesPkg :=
  {| ShareSize := 512;
     MaxShareVersion := 127;
     reservedBytesDecodable := fun bs =>
       bool_decide (length bs = 4) && (BigEndianValue bs <? 512)%Z;
     byteIndexEncodable := fun n => (n <? 512)%Z |}.

#[local] Existing Instances runtime namespaces shares.

(** The first compact share of a sequence, as [NewBuilder] leaves it. *)
Definition firstCompact : Builder :=
  {| namespace := TxNamespace; shareVersion := 0; isFirstShare := true;
     isCompactShare := true;
     rawShareData := Slice (TxNamespace ++ [1%Z] ++ replicate 8 0%Z)
                           (replicate 474 0%Z) |}.

(** A sparse continuation share, as [NewBuilder] leaves it. *)
Definition contSparse : Builder :=
  {| namespace := BlobNamespace; shareVersion := 0; isFirstShare := false;
     isCompactShare := false;
     rawShareData := Slice (BlobNamespace ++ [0%Z]) (replicate 482 0%Z) |}.

(** A raw share of one byte too many, a raw share of exactly 512 bytes, and
    a sequence of calls on a builder. *)
Definition oversized : slice := Slice (replicate 513 0%Z) [].
Definition fullShare : slice := Slice (replicate 512 0%Z) [].

Definition session : list op :=
  [OpAddData (replicate 600 9%Z); OpMaybeWriteReservedBytes;
   OpWriteSequenceLen 600; OpFlipSequenceStart;
   OpImportRawShare (Slice (replicate 100 0%Z) []);
   OpZeroPadIfNecessary].

(** A sequence of calls without an import. *)
Definition packing : list op :=
  [OpAddData (replicate 10 1%Z); OpMaybeWriteReservedBytes;
   OpWriteSequenceLen 600; OpAddData (replicate 5 2%Z);
   OpFlipSequenceStart; OpZeroPadIfNecessary].

End Celestia.

(** * Properties *)

(** ** Slices *)

Lemma elems_append `{GoRuntime} (s : slice) (xs : list byte) :
  elems (append s xs) = elems s ++ xs.
Proof. unfold append. by case_decide. Qed.

Lemma len_append `{GoRuntime} (s : slice) (xs : list byte) :
  len (append s xs) = len s + length xs.
Proof. unfold len. by rewrite elems_append, length_app. Qed.

Lemma append_nil `{GoRuntime} (s : slice) : append s [] = s.
Proof.
  destruct s as [es sp]. unfold append; cbn [elems spare length].
  destruct (decide (0 <= length sp)) as [_ | Hn]; [| lia].
  by rewrite app_nil_r, drop_0.
Qed.

Lemma store_Some (s : slice) (i : nat) (x : byte) :
  i < len s -> store s i x = Some (Slice (<[i := x]> (elems s)) (spare s)).
Proof. intros Hi. unfold store. by case_decide. Qed.

Lemma store_len (s s' : slice) (i : nat) (x : byte) :
  store s i x = Some s' -> len s' = len s /\ spare s' = spare s.
Proof.
  unfold store. case_decide; [| done]. intros [= <-].
  unfold len; simpl. by rewrite length_insert.
Qed.

Lemma store_loop_len (n i k : nat) (src : list byte) (dst dst' : slice) :
  store_loop n i k src dst = Some dst' ->
  len dst' = len dst /\ spare dst' = spare dst.
Proof.
  revert i dst. induction n as [| n IH]; intros i dst; simpl.
  - by intros [= <-].
  - destruct (src !! i) as [x |]; simpl; [| done].
    destruct (store dst (k + i) x) as [d |] eqn:Hst; simpl; [| done].
    intros Hl. apply IH in Hl as [-> ->]. by apply store_len in Hst.
Qed.

(** The copy loop, when source and destination are long enough, overwrites
    exactly the window [k+i, k+i+n) of the destination. *)
Lemma store_loop_window (n i k : nat) (src : list byte) (dst : slice) :
  i + n <= length src ->
  k + i + n <= len dst ->
  store_loop n i k src dst =
    Some (Slice (take (k + i) (elems dst) ++ take n (drop i src)
                   ++ drop (k + i + n) (elems dst))
                (spare dst)).
Proof.
  revert i dst. induction n as [| n IH]; intros i [es sp] Hs Hd;
    unfold len in *; simpl in *.
  - rewrite Nat.add_0_r, take_drop. done.
  - destruct (lookup_lt_is_Some_2 src i) as [x Hx]; [lia |].
    rewrite Hx; simpl. rewrite store_Some by (unfold len; simpl; lia).
    simpl. rewrite IH by (unfold len; simpl; rewrite ?length_insert; lia).
    simpl. f_equal. f_equal.
    rewrite (drop_S src x i Hx); simpl.
    replace (k + S i) with (S (k + i)) by lia.
    rewrite take_S_r with (x := x)
      by (apply list_lookup_insert_eq; lia).
    rewrite take_insert_ge by lia.
    rewrite <- app_assoc; simpl. f_equal. f_equal. f_equal.
    rewrite drop_insert_lt by lia. f_equal. lia.
Qed.

(** ** Big-endian encoding *)

Lemma BigEndianValue_be32 (v : Z) :
  (0 <= v < 2 ^ 32)%Z -> BigEndianValue (be32 v) = v.
Proof.
  intros Hv. unfold BigEndianValue, be32; cbn [foldl].
  rewrite !Z.shiftr_div_pow2 by lia.
  replace (v / 2 ^ 24)%Z with (v / 256 / 256 / 256)%Z
    by (rewrite !Z.div_div by lia; reflexivity).
  replace (v / 2 ^ 16)%Z with (v / 256 / 256)%Z
    by (rewrite !Z.div_div by lia; reflexivity).
  change (2 ^ 8)%Z with 256%Z. change (2 ^ 32)%Z with 4294967296%Z in Hv.
  Z.to_euclidean_division_equations. lia.
Qed.

Section BuilderFacts.
Context `{GoRuntime} `{NamespacePkg} `{SharesPkg}.

Lemma set_rawShareData_same (b : Builder) : set_rawShareData b (rawShareData b) = b.
Proof. by destruct b. Qed.

Lemma AvailableBytes_len (b : Builder) :
  (AvailableBytes b + Z.of_nat (len (rawShareData b)) = Z.of_nat ShareSize)%Z.
Proof. unfold AvailableBytes. lia. Qed.

(** ** [AddData] *)

(** What [AddData] does on a buffer that is not over-full: a closed form of
    both of its branches. *)
Lemma AddData_fits (b : Builder) (rawData : list byte) :
  (0 <= AvailableBytes b)%Z ->
  let n := Z.to_nat (Z.min (Z.of_nat (length rawData)) (AvailableBytes b)) in
  AddData b rawData =
    Some (drop n rawData,
          set_rawShareData b (append (rawShareData b) (take n rawData))).
Proof.
  intros Hav n. unfold AddData. fold (AvailableBytes b).
  case_decide as Hle.
  - assert (n = length rawData) as -> by lia.
    by rewrite drop_all, firstn_all.
  - assert (n = Z.to_nat (AvailableBytes b)) as -> by lia.
    unfold slice_to, slice_from.
    rewrite !decide_True by lia. done.
Qed.

(** C2 (amended). On a builder whose buffer is not over-full, that is with
    [0 <= AvailableBytes()], [AddData] appends to the buffer exactly the first
    [min(len(input), AvailableBytes())] bytes of the input, never more than
    [AvailableBytes()], touches no other field, and returns the rest of the
    input, of length [max(0, len(input) - AvailableBytes())], which is empty
    when the whole input fit. *)
Theorem AddData_appends_what_fits (b : Builder) (rawData : list byte) :
  (0 <= AvailableBytes b)%Z ->
  let n := Z.to_nat (Z.min (Z.of_nat (length rawData)) (AvailableBytes b)) in
  exists b',
    AddData b rawData = Some (drop n rawData, b')
    /\ elems (rawShareData b') = elems (rawShareData b) ++ take n rawData
    /\ length (take n rawData) = n
    /\ (Z.of_nat n <= AvailableBytes b)%Z
    /\ take n rawData ++ drop n rawData = rawData
    /\ Z.of_nat (length (drop n rawData))
       = Z.max 0 (Z.of_nat (length rawData) - AvailableBytes b)
    /\ ((Z.of_nat (length rawData) <= AvailableBytes b)%Z -> drop n rawData = [])
    /\ namespace b' = namespace b /\ shareVersion b' = shareVersion b
    /\ isFirstShare b' = isFirstShare b /\ isCompactShare b' = isCompactShare b.
Proof.
  intros Hav n. eexists. split; [by apply AddData_fits |].
  cbn [rawShareData set_rawShareData namespace shareVersion isFirstShare
       isCompactShare].
  rewrite elems_append, length_take, length_drop, take_drop.
  repeat split; try lia.
  intros Hle. apply drop_ge. lia.
Qed.

(** C10. On a buffer of at most [ShareSize] bytes [AddData] does not panic,
    and the bound [pendingLeft] of its two slice expressions is in range
    whenever they are evaluated; on a buffer that is exactly full it returns
    the whole input and leaves the builder as it was; on a buffer longer than
    [ShareSize] the bound is negative and the call panics. *)
Theorem AddData_in_bounds (b : Builder) (rawData : list byte) :
  (len (rawShareData b) <= ShareSize ->
     is_Some (AddData b rawData)
     /\ ((AvailableBytes b < Z.of_nat (length rawData))%Z ->
         (0 <= AvailableBytes b <= Z.of_nat (length rawData))%Z
         /\ is_Some (slice_to rawData (AvailableBytes b))
         /\ is_Some (slice_from rawData (AvailableBytes b))))
  /\ (len (rawShareData b) = ShareSize ->
        AvailableBytes b = 0%Z /\ AddData b rawData = Some (rawData, b))
  /\ (ShareSize < len (rawShareData b) ->
        (AvailableBytes b < 0)%Z
        /\ slice_to rawData (AvailableBytes b) = None
        /\ AddData b rawData = None).
Proof.
  split; [| split].
  - intros Hlen.
    assert (0 <= AvailableBytes b)%Z as Hav by (unfold AvailableBytes; lia).
    split; [rewrite AddData_fits by done; eauto |].
    intros Hlt. unfold slice_to, slice_from.
    rewrite !decide_True by lia. split; [lia |]. split; eauto.
  - intros Hlen.
    assert (AvailableBytes b = 0%Z) as Hav by (unfold AvailableBytes; lia).
    split; [done |].
    rewrite AddData_fits by lia. rewrite Hav.
    replace (Z.to_nat (Z.min (Z.of_nat (length rawData)) 0)) with 0 by lia.
    by rewrite drop_0, take_0, append_nil, set_rawShareData_same.
  - intros Hlen.
    assert (AvailableBytes b < 0)%Z as Hav by (unfold AvailableBytes; lia).
    split; [done |].
    assert (slice_to rawData (AvailableBytes b) = None) as Hs
      by (unfold slice_to; rewrite decide_False by lia; done).
    split; [done |].
    unfold AddData. fold (AvailableBytes b).
    rewrite decide_False by lia. by rewrite Hs.
Qed.

(** ** Precondition failures *)

Lemma MaybeWriteReservedBytes_not_compact (b : Builder) :
  isCompactShare b = false ->
  MaybeWriteReservedBytes b = Some (Some ErrNotCompactShare, b).
Proof. intros Hc. unfold MaybeWriteReservedBytes. by rewrite Hc. Qed.

(** C4. On a builder that is not the first share of its sequence,
    [WriteSequenceLen] returns the not-first-share error for every sequence
    length and leaves the builder, buffer included, as it was. *)
Theorem WriteSequenceLen_not_first (b : Builder) (sequenceLen : Z) :
  isFirstShare b = false ->
  WriteSequenceLen (Some b) sequenceLen = Some (Some ErrNotFirstShare, Some b).
Proof. intros Hf. unfold WriteSequenceLen. by rewrite Hf. Qed.

(** C5. On a sparse builder [MaybeWriteReservedBytes] returns the
    not-a-compact-share error and leaves the builder, buffer included, as it
    was: the test comes before any access to the buffer. *)
Theorem MaybeWriteReservedBytes_sparse (b : Builder) :
  isCompactShare b = false ->
  MaybeWriteReservedBytes b = Some (Some ErrNotCompactShare, b).
Proof. apply MaybeWriteReservedBytes_not_compact. Qed.

(** ** [ImportRawShare] *)

(** C9 (amended). [ImportRawShare] replaces the whole buffer by the given
    bytes, whatever the buffer held before, and leaves the namespace, the
    share version, the first-share flag and the share kind as they were. *)
Theorem ImportRawShare_replaces_buffer_only (b : Builder) (rawBytes : slice) :
  rawShareData (ImportRawShare b rawBytes) = rawBytes
  /\ namespace (ImportRawShare b rawBytes) = namespace b
  /\ shareVersion (ImportRawShare b rawBytes) = shareVersion b
  /\ isFirstShare (ImportRawShare b rawBytes) = isFirstShare b
  /\ isCompactShare (ImportRawShare b rawBytes) = isCompactShare b
  /\ (forall old : slice,
        ImportRawShare (set_rawShareData b old) rawBytes
        = ImportRawShare b rawBytes).
Proof. by repeat split. Qed.

(** ** [NewBuilder] *)

(** The header that [NewBuilder] writes. *)
Lemma NewBuilder_accepts (ns : Namespace) (v : Z) (f : bool) :
  (v <= MaxShareVersion)%Z ->
  exists raw,
    NewBuilder ns v f =
      inr {| namespace := ns; shareVersion := v; isFirstShare := f;
             isCompactShare := IsTx ns || IsPayForBlob ns;
             rawShareData := raw |}
    /\ elems raw =
         Bytes ns
         ++ [(Z.lor (Z.shiftl v 1) (Z.b2z f) mod 256)%Z]
         ++ (if f then replicate SequenceLenBytes 0%Z else [])
         ++ (if IsTx ns || IsPayForBlob ns
             then replicate CompactShareReservedBytes 0%Z else []).
Proof.
  intros Hv. unfold NewBuilder, init, isCompactShare_ns.
  cbn [isCompactShare].
  destruct (IsTx ns || IsPayForBlob ns);
    unfold prepareCompactShare, prepareSparseShare, NewInfoByte;
    cbn [shareVersion isFirstShare namespace];
    (destruct (Z.ltb_spec MaxShareVersion v) as [Hlt | _]; [lia |]);
    destruct f; unfold set_rawShareData; cbn -[append make replicate];
    eexists; (split; [reflexivity |]);
    rewrite ?elems_append; cbn [make elems replicate app];
    rewrite <- ?app_assoc; try rewrite app_nil_r; reflexivity.
Qed.

Lemma NewBuilder_rejects (ns : Namespace) (v : Z) (f : bool) :
  (MaxShareVersion < v)%Z -> NewBuilder ns v f = inl ErrInvalidVersion.
Proof.
  intros Hv. unfold NewBuilder, init, isCompactShare_ns.
  cbn [isCompactShare].
  destruct (IsTx ns || IsPayForBlob ns);
    unfold prepareCompactShare, prepareSparseShare, NewInfoByte;
    cbn [shareVersion isFirstShare];
    destruct (Z.ltb_spec MaxShareVersion v); (done || lia).
Qed.

Lemma info_byte_bits (v : Z) (f : bool) :
  (0 <= v <= 127)%Z ->
  let infoByte := (Z.lor (Z.shiftl v 1) (Z.b2z f) mod 256)%Z in
  Z.testbit infoByte 0 = f /\ Z.shiftr infoByte 1 = v.
Proof.
  intros Hv infoByte.
  assert (Z.lor (Z.shiftl v 1) (Z.b2z f) = 2 * v + Z.b2z f)%Z as Hlor.
  { destruct v as [| p | p]; [by destruct f | by destruct f | lia]. }
  subst infoByte. rewrite Hlor.
  rewrite Z.mod_small by (destruct f; simpl; lia).
  split.
  - apply Z.testbit_0_r.
  - rewrite Z.shiftr_div_pow2 by lia. change (2 ^ 1)%Z with 2%Z.
    destruct f; simpl Z.b2z; Z.to_euclidean_division_equations; lia.
Qed.

(** C6. [NewBuilder] makes the share compact exactly when the namespace is
    the transaction or the pay-for-blob namespace; a share version beyond the
    largest encodable one is refused with the invalid-version error; otherwise
    the builder holds the arguments and its buffer is, in order, the namespace
    bytes, one info byte, four zero bytes for the sequence length exactly when
    the share is a first share, and four zero bytes for the reserved bytes
    exactly when the share is compact. The info byte holds the first-share
    flag in bit 0 and the version in the bits above it. *)
Theorem NewBuilder_layout (ns : Namespace) (v : Z) (f : bool) :
  let compact := IsTx ns || IsPayForBlob ns in
  let infoByte := (Z.lor (Z.shiftl v 1) (Z.b2z f) mod 256)%Z in
  isCompactShare_ns ns = compact
  /\ ((MaxShareVersion < v)%Z -> NewBuilder ns v f = inl ErrInvalidVersion)
  /\ ((v <= MaxShareVersion)%Z ->
      exists b,
        NewBuilder ns v f = inr b
        /\ namespace b = ns /\ shareVersion b = v /\ isFirstShare b = f
        /\ isCompactShare b = compact
        /\ elems (rawShareData b) =
             Bytes ns ++ [infoByte]
             ++ (if f then replicate SequenceLenBytes 0%Z else [])
             ++ (if compact then replicate CompactShareReservedBytes 0%Z
                 else []))
  /\ ((0 <= v <= 127)%Z ->
      Z.testbit infoByte 0 = f /\ Z.shiftr infoByte 1 = v).
Proof.
  intros compact infoByte. split; [done |]. split; [| split].
  - apply NewBuilder_rejects.
  - intros Hv. destruct (NewBuilder_accepts ns v f Hv) as (raw & Hnew & Hraw).
    eexists. split; [exact Hnew |]. by repeat split.
  - apply info_byte_bits.
Qed.

(** ** [FlipSequenceStart] *)

Lemma lxor_1_involutive (x : Z) : Z.lxor (Z.lxor x 1) 1 = x.
Proof. by rewrite Z.lxor_assoc, Z.lxor_nilpotent, Z.lxor_0_r. Qed.

Lemma lxor_1_bits (x : Z) :
  Z.testbit (Z.lxor x 1) 0 = negb (Z.testbit x 0)
  /\ (forall i : Z, (0 < i)%Z -> Z.testbit (Z.lxor x 1) i = Z.testbit x i).
Proof.
  split.
  - rewrite Z.lxor_spec. change (Z.testbit 1 0) with true.
    by destruct (Z.testbit x 0).
  - intros i Hi. rewrite Z.lxor_spec.
    assert (Z.testbit 1 i = false) as -> by (destruct i; [lia | done | lia]).
    by destruct (Z.testbit x i).
Qed.

Lemma FlipSequenceStart_Some (b : Builder) (x : byte) :
  elems (rawShareData b) !! NamespaceSize = Some x ->
  FlipSequenceStart b =
    Some (set_rawShareData b
            (Slice (<[NamespaceSize := Z.lxor x 1]> (elems (rawShareData b)))
                   (spare (rawShareData b)))).
Proof.
  intros Hx. unfold FlipSequenceStart, indexOfInfoBytes. cbv zeta.
  rewrite Hx; simpl.
  rewrite store_Some by (by apply lookup_lt_Some in Hx). done.
Qed.

(** C7. On a builder whose buffer holds at least the namespace and the info
    byte, [FlipSequenceStart] does not panic and replaces the info byte, at
    index [NamespaceSize], by its exclusive or with [0x01]: bit 0 of the info
    byte is inverted, its other bits, the other bytes of the buffer and the
    other fields are kept. Flipping twice gives back the builder, hence the
    info byte, one started from. *)
Theorem FlipSequenceStart_toggles (b : Builder) :
  NamespaceSize + ShareInfoBytes <= len (rawShareData b) ->
  exists (infoByte : byte) (b' : Builder),
    elems (rawShareData b) !! NamespaceSize = Some infoByte
    /\ FlipSequenceStart b = Some b'
    /\ elems (rawShareData b')
       = <[NamespaceSize := Z.lxor infoByte 1]> (elems (rawShareData b))
    /\ elems (rawShareData b') !! NamespaceSize = Some (Z.lxor infoByte 1)
    /\ Z.testbit (Z.lxor infoByte 1) 0 = negb (Z.testbit infoByte 0)
    /\ (forall i : Z, (0 < i)%Z ->
          Z.testbit (Z.lxor infoByte 1) i = Z.testbit infoByte i)
    /\ (forall j : nat, j <> NamespaceSize ->
          elems (rawShareData b') !! j = elems (rawShareData b) !! j)
    /\ spare (rawShareData b') = spare (rawShareData b)
    /\ namespace b' = namespace b /\ shareVersion b' = shareVersion b
    /\ isFirstShare b' = isFirstShare b /\ isCompactShare b' = isCompactShare b
    /\ FlipSequenceStart b' = Some b.
Proof.
  intros Hlen. unfold ShareInfoBytes, len in Hlen.
  destruct (lookup_lt_is_Some_2 (elems (rawShareData b)) NamespaceSize)
    as [x Hx]; [lia |].
  exists x. eexists. split; [exact Hx |].
  split; [by apply FlipSequenceStart_Some |].
  cbn [set_rawShareData rawShareData elems spare namespace shareVersion
       isFirstShare isCompactShare].
  assert (<[NamespaceSize := Z.lxor x 1]> (elems (rawShareData b))
            !! NamespaceSize = Some (Z.lxor x 1)) as Hx'
    by (apply list_lookup_insert_eq; lia).
  destruct (lxor_1_bits x) as [Hb0 Hbi].
  repeat split; try done.
  - intros j Hj. apply list_lookup_insert_ne. congruence.
  - erewrite FlipSequenceStart_Some by exact Hx'.
    cbn [set_rawShareData rawShareData elems spare namespace shareVersion
         isFirstShare isCompactShare].
    rewrite list_insert_insert_eq, lxor_1_involutive.
    rewrite (list_insert_id _ _ x) by done.
    by destruct b as [? ? ? ? []].
Qed.

(** ** [ZeroPadIfNecessary] *)

Lemma ZeroPadIfNecessary_fits (b : Builder) :
  len (rawShareData b) <= ShareSize ->
  ZeroPadIfNecessary b =
    (Z.of_nat (ShareSize - len (rawShareData b)),
     set_rawShareData b
       (append (rawShareData b)
               (replicate (ShareSize - len (rawShareData b)) 0%Z))).
Proof.
  intros Hlen. unfold ZeroPadIfNecessary, zeroPadIfNecessary.
  case_decide as Hfull; [| done].
  replace (ShareSize - len (rawShareData b)) with 0 by lia.
  by rewrite append_nil.
Qed.

(** C8 (amended). On a buffer of at most [ShareSize] bytes,
    [ZeroPadIfNecessary] appends zero bytes up to exactly [ShareSize] bytes
    and returns their number, which is 0, the builder being unchanged, when the buffer was
    already full. In particular, for a sparse share made by [NewBuilder] into
    which one unit that fits has been added, the number returned is
    [ShareSize] less the header length less the length of the unit. *)
Theorem ZeroPadIfNecessary_pads_to_ShareSize :
  (forall b : Builder,
     len (rawShareData b) <= ShareSize ->
     let n := ShareSize - len (rawShareData b) in
     exists b',
       ZeroPadIfNecessary b = (Z.of_nat n, b')
       /\ elems (rawShareData b') = elems (rawShareData b) ++ replicate n 0%Z
       /\ len (rawShareData b') = ShareSize
       /\ (len (rawShareData b) = ShareSize -> Z.of_nat n = 0%Z /\ b' = b)
       /\ namespace b' = namespace b /\ shareVersion b' = shareVersion b
       /\ isFirstShare b' = isFirstShare b
       /\ isCompactShare b' = isCompactShare b)
  /\ (forall (ns : Namespace) (v : Z) (f : bool) (b0 : Builder)
             (data : list byte),
        IsTx ns || IsPayForBlob ns = false ->
        NewBuilder ns v f = inr b0 ->
        (Z.of_nat (length data) <= AvailableBytes b0)%Z ->
        let headerLen :=
          length (Bytes ns) + ShareInfoBytes
          + (if f then SequenceLenBytes else 0) in
        exists b1,
          AddData b0 data = Some ([], b1)
          /\ len (rawShareData b1) = headerLen + length data
          /\ fst (ZeroPadIfNecessary b1)
             = (Z.of_nat ShareSize - Z.of_nat headerLen
                - Z.of_nat (length data))%Z).
Proof.
  split.
  - intros b Hlen n. eexists. split; [by apply ZeroPadIfNecessary_fits |].
    cbn [set_rawShareData rawShareData namespace shareVersion isFirstShare
         isCompactShare].
    rewrite len_append, elems_append, length_replicate.
    repeat split; try done; try lia.
    subst n. replace (ShareSize - len (rawShareData b)) with 0 by lia.
    by rewrite append_nil, set_rawShareData_same.
  - intros ns v f b0 data Hsparse Hnew Hfit headerLen.
    assert (v <= MaxShareVersion)%Z as Hv.
    { destruct (Z.le_gt_cases v MaxShareVersion) as [| Hgt]; [done |].
      rewrite NewBuilder_rejects in Hnew by lia. done. }
    destruct (NewBuilder_accepts ns v f Hv) as (raw & Hb0 & Hraw).
    rewrite Hb0 in Hnew. injection Hnew as <-.
    rewrite Hsparse, app_nil_r in Hraw.
    assert (len raw = headerLen) as Hhdr.
    { unfold len, headerLen, ShareInfoBytes. rewrite Hraw, !length_app.
      destruct f; unfold SequenceLenBytes; simpl; lia. }
    unfold AvailableBytes in Hfit. cbn [rawShareData] in Hfit.
    eexists. split.
    { rewrite AddData_fits by (unfold AvailableBytes; simpl; lia).
      unfold AvailableBytes; cbn [rawShareData].
      replace (Z.to_nat _) with (length data) by lia.
      rewrite drop_all, firstn_all. reflexivity. }
    cbn [set_rawShareData rawShareData].
    rewrite len_append. split; [lia |].
    rewrite ZeroPadIfNecessary_fits
      by (cbn [set_rawShareData rawShareData]; rewrite len_append; lia).
    cbn [fst set_rawShareData rawShareData]. rewrite len_append. lia.
Qed.

(** ** The capacity invariant *)

Lemma AddData_len (b b' : Builder) (rawData left : list byte) :
  len (rawShareData b) <= ShareSize ->
  AddData b rawData = Some (left, b') ->
  len (rawShareData b') <= ShareSize.
Proof.
  intros Hlen. rewrite AddData_fits by (unfold AvailableBytes; lia).
  intros [= _ <-]. cbn [set_rawShareData rawShareData].
  rewrite len_append, length_take. unfold AvailableBytes. lia.
Qed.

Lemma MaybeWriteReservedBytes_len (b b' : Builder) (e : option error) :
  MaybeWriteReservedBytes b = Some (e, b') ->
  len (rawShareData b') = len (rawShareData b).
Proof.
  unfold MaybeWriteReservedBytes.
  destruct (negb (isCompactShare b)); [by intros [= _ <-] |].
  destruct (isEmptyReservedBytes b) as [[err | [|]] |]; cbn -[store_loop];
    [by intros [= _ <-] | | by intros [= _ <-] | done].
  destruct (NewReservedBytes _) as [err | rb]; [by intros [= _ <-] |].
  destruct (store_loop _ _ _ _ _) as [raw |] eqn:Hloop; simpl; [| done].
  intros [= _ <-]. cbn [set_rawShareData rawShareData].
  by apply store_loop_len in Hloop as [-> _].
Qed.

Lemma WriteSequenceLen_len (b b' : Builder) (n : Z) (e : option error) :
  WriteSequenceLen (Some b) n = Some (e, Some b') ->
  len (rawShareData b') = len (rawShareData b).
Proof.
  unfold WriteSequenceLen.
  destruct (negb (isFirstShare b)); [by intros [= _ <-] |].
  destruct (PutUint32 _ _) as [buf |]; cbn -[store_loop]; [| done].
  destruct (store_loop _ _ _ _ _) as [raw |] eqn:Hloop; simpl; [| done].
  intros [= _ <-]. cbn [set_rawShareData rawShareData].
  by apply store_loop_len in Hloop as [-> _].
Qed.

Lemma FlipSequenceStart_len (b b' : Builder) :
  FlipSequenceStart b = Some b' ->
  len (rawShareData b') = len (rawShareData b).
Proof.
  unfold FlipSequenceStart.
  destruct (elems (rawShareData b) !! _) as [x |]; simpl; [| done].
  destruct (store _ _ _) as [raw |] eqn:Hst; simpl; [| done].
  intros [= <-]. cbn [set_rawShareData rawShareData].
  by apply store_len in Hst as [-> _].
Qed.

(** Every call keeps the buffer within a share, imports of more than a
    share's worth of bytes apart. *)
Lemma step_len (b b' : Builder) (o : op) :
  len (rawShareData b) <= ShareSize ->
  imports_fit o ->
  step b o = Some b' ->
  len (rawShareData b') <= ShareSize.
Proof.
  intros Hlen Hfit. destruct o as [rawData | rawBytes | | | n |]; cbn [step].
  - destruct (AddData b rawData) as [[left b1] |] eqn:Hadd; simpl; [| done].
    intros [= <-]. by eapply AddData_len.
  - by intros [= <-].
  - rewrite ZeroPadIfNecessary_fits by done. intros [= <-].
    cbn [snd set_rawShareData rawShareData].
    rewrite len_append, length_replicate. lia.
  - destruct (MaybeWriteReservedBytes b) as [[e b1] |] eqn:Hm; simpl; [| done].
    intros [= <-]. by rewrite (MaybeWriteReservedBytes_len _ _ _ Hm).
  - destruct (WriteSequenceLen (Some b) n) as [[e [b1 |]] |] eqn:Hw; simpl;
      [| done | done].
    intros [= <-]. by rewrite (WriteSequenceLen_len _ _ _ _ Hw).
  - intros Hflip. by rewrite (FlipSequenceStart_len _ _ Hflip).
Qed.

Lemma run_len (ops : list op) (b b' : Builder) :
  len (rawShareData b) <= ShareSize ->
  Forall imports_fit ops ->
  run b ops = Some b' ->
  len (rawShareData b') <= ShareSize.
Proof.
  revert b. induction ops as [| o ops IH]; intros b Hlen Hfit; simpl.
  - by intros [= <-].
  - inversion Hfit as [| ? ? Ho Hops]; subst.
    destruct (step b o) as [b1 |] eqn:Hstep; simpl; [| done].
    apply IH; [| done]. by eapply step_len.
Qed.

(** C1 (amended). [AvailableBytes()] plus the length of the buffer is
    [ShareSize] for every builder. The buffer that [NewBuilder] leaves is
    within a share when the header it writes (the namespace bytes, the info
    byte, the sequence length of a first share, the reserved bytes of a
    compact share) fits in one, and from a buffer within a share
    [AvailableBytes()] is not negative after any sequence of builder calls
    in which [ImportRawShare] is given at most [ShareSize] bytes. *)
Theorem AvailableBytes_invariant :
  (forall b : Builder,
     (AvailableBytes b + Z.of_nat (len (rawShareData b))
      = Z.of_nat ShareSize)%Z)
  /\ (forall (ns : Namespace) (v : Z) (f : bool) (b : Builder),
        length (Bytes ns) + ShareInfoBytes
          + (if f then SequenceLenBytes else 0)
          + (if IsTx ns || IsPayForBlob ns
             then CompactShareReservedBytes else 0) <= ShareSize ->
        NewBuilder ns v f = inr b ->
        (0 <= AvailableBytes b)%Z)
  /\ (forall (b : Builder) (ops : list op) (b' : Builder),
        (0 <= AvailableBytes b)%Z ->
        Forall imports_fit ops ->
        run b ops = Some b' ->
        (0 <= AvailableBytes b')%Z).
Proof.
  split; [apply AvailableBytes_len |]. split.
  - intros ns v f b Hhdr Hnew.
    destruct (Z.le_gt_cases v MaxShareVersion) as [Hv | Hv].
    + destruct (NewBuilder_accepts ns v f Hv) as (raw & Hb & Hraw).
      rewrite Hb in Hnew. injection Hnew as <-.
      unfold AvailableBytes, len. cbn [rawShareData]. rewrite Hraw.
      rewrite !length_app.
      unfold ShareInfoBytes, SequenceLenBytes, CompactShareReservedBytes in *.
      revert Hhdr.
      destruct f, (IsTx ns || IsPayForBlob ns); simpl; lia.
    + rewrite NewBuilder_rejects in Hnew by lia. done.
  - intros b ops b' Hav Hfit Hrun.
    assert (len (rawShareData b') <= ShareSize)
      by (eapply run_len; [| done..]; unfold AvailableBytes in Hav; lia).
    unfold AvailableBytes. lia.
Qed.

(** ** [MaybeWriteReservedBytes] *)

Lemma reslice_within (s : slice) (i j : nat) :
  i <= j -> j <= len s ->
  reslice s i j = Some (take (j - i) (drop i (elems s))).
Proof.
  intros Hij Hj. unfold reslice, len, cap in *.
  rewrite decide_True by lia.
  rewrite drop_app_le by lia.
  rewrite take_app_le by (rewrite length_drop; lia). done.
Qed.

Lemma store_loop_bounds (n i k : nat) (src : list byte) (dst dst' : slice) :
  store_loop (S n) i k src dst = Some dst' ->
  k + i + S n <= len dst /\ i + S n <= length src.
Proof.
  revert i dst. induction n as [| n IH]; intros i dst.
  - cbn. destruct (src !! i) as [x |] eqn:Hx; cbn; [| done].
    apply lookup_lt_Some in Hx. unfold store.
    case_decide; [| done]. intros _. lia.
  - change (store_loop (S (S n)) i k src dst)
      with (x ← src !! i; d ← store dst (k + i) x;
            store_loop (S n) (S i) k src d).
    destruct (src !! i) as [x |]; cbn -[store_loop]; [| done].
    destruct (store dst (k + i) x) as [d |] eqn:Hst; cbn -[store_loop];
      [| done].
    intros Hl. apply IH in Hl. apply store_len in Hst as [Hd _]. lia.
Qed.

Section ReservedBytes.
Variable b : Builder.
Hypothesis Hwithin :
  indexOfReservedBytes b + CompactShareReservedBytes <= len (rawShareData b).

Lemma withReservedBytes_len (bs : list byte) :
  length bs = CompactShareReservedBytes ->
  len (rawShareData (withReservedBytes b bs)) = len (rawShareData b).
Proof.
  intros Hbs. unfold withReservedBytes, len in *.
  cbn [set_rawShareData rawShareData elems].
  rewrite !length_app, length_take, length_drop. lia.
Qed.

Lemma withReservedBytes_region (bs : list byte) :
  length bs = CompactShareReservedBytes ->
  reservedRegion (withReservedBytes b bs) = bs.
Proof.
  intros Hbs. unfold reservedRegion, withReservedBytes, len in *.
  unfold indexOfReservedBytes at 1.
  cbn [set_rawShareData rawShareData elems isFirstShare].
  fold (indexOfReservedBytes b).
  rewrite drop_app_length' by (rewrite length_take; lia).
  by rewrite take_app_length'.
Qed.

Lemma withReservedBytes_twice (bs : list byte) :
  length bs = CompactShareReservedBytes ->
  withReservedBytes (withReservedBytes b bs) bs = withReservedBytes b bs.
Proof.
  intros Hbs. unfold withReservedBytes at 1. unfold len in *.
  assert (indexOfReservedBytes (withReservedBytes b bs)
          = indexOfReservedBytes b) as -> by done.
  unfold withReservedBytes.
  cbn [set_rawShareData rawShareData elems spare namespace shareVersion
       isFirstShare isCompactShare].
  rewrite take_app_length' by (rewrite length_take; lia).
  rewrite drop_app_add' by (rewrite length_take; lia).
  rewrite <- Hbs at 2. by rewrite drop_app_length.
Qed.

(** On a compact share whose buffer holds the reserved-bytes region, the
    four outcomes of [MaybeWriteReservedBytes]. *)
Lemma MaybeWriteReservedBytes_within :
  isCompactShare b = true ->
  MaybeWriteReservedBytes b =
    Some (if reservedBytesDecodable (reservedRegion b) then
            if (BigEndianValue (reservedRegion b) =? 0)%Z then
              let n := uint32 (Z.of_nat (len (rawShareData b))) in
              if byteIndexEncodable n
              then (None, withReservedBytes b (be32 n))
              else (Some ErrByteIndex, b)
            else (None, b)
          else (Some ErrMalformedReservedBytes, b)).
Proof.
  intros Hc. unfold MaybeWriteReservedBytes, isEmptyReservedBytes.
  rewrite Hc; cbn [negb]. cbv zeta.
  rewrite reslice_within by lia.
  replace (indexOfReservedBytes b + CompactShareReservedBytes
           - indexOfReservedBytes b) with CompactShareReservedBytes by lia.
  fold (reservedRegion b). cbn [mbind option_bind].
  unfold ParseReservedBytes, NewReservedBytes.
  destruct (reservedBytesDecodable (reservedRegion b)); [| done].
  destruct (BigEndianValue (reservedRegion b) =? 0)%Z; [| done].
  destruct (byteIndexEncodable _); [| done].
  rewrite store_loop_window by (cbn [length be32]; unfold CompactShareReservedBytes in *; lia).
  cbn [mbind option_bind]. rewrite Nat.add_0_r, drop_0.
  rewrite (take_ge (be32 _)) by done. done.
Qed.

End ReservedBytes.

(** Outside of that case a call that returns has not touched the builder. *)
Lemma MaybeWriteReservedBytes_short (b b1 : Builder) (e : option error) :
  ~ indexOfReservedBytes b + CompactShareReservedBytes <= len (rawShareData b) ->
  MaybeWriteReservedBytes b = Some (e, b1) -> b1 = b.
Proof.
  intros Hshort. unfold MaybeWriteReservedBytes.
  destruct (negb (isCompactShare b)); [by intros [= _ <-] |].
  destruct (isEmptyReservedBytes b) as [[err | [|]] |]; cbn -[store_loop];
    [by intros [= _ <-] | | by intros [= _ <-] | done].
  destruct (NewReservedBytes _) as [err | rb]; [by intros [= _ <-] |].
  destruct (store_loop _ _ _ _ _) as [raw |] eqn:Hloop; [| done].
  apply store_loop_bounds in Hloop.
  unfold CompactShareReservedBytes in Hshort. lia.
Qed.

Lemma AddData_grows (b b2 : Builder) (rawData left : list byte) :
  AddData b rawData = Some (left, b2) ->
  exists chunk,
    elems (rawShareData b2) = elems (rawShareData b) ++ chunk
    /\ isFirstShare b2 = isFirstShare b
    /\ isCompactShare b2 = isCompactShare b.
Proof.
  unfold AddData. case_decide.
  - intros [= _ <-]. eexists.
    cbn [set_rawShareData rawShareData isFirstShare isCompactShare].
    by rewrite elems_append.
  - destruct (slice_to _ _) as [chunk |]; cbn -[append]; [| done].
    destruct (slice_from _ _) as [rest |]; cbn -[append]; [| done].
    intros [= _ <-]. eexists.
    cbn [set_rawShareData rawShareData isFirstShare isCompactShare].
    by rewrite elems_append.
Qed.

Lemma reservedRegion_grown (b b2 : Builder) (chunk : list byte) :
  indexOfReservedBytes b + CompactShareReservedBytes <= len (rawShareData b) ->
  elems (rawShareData b2) = elems (rawShareData b) ++ chunk ->
  isFirstShare b2 = isFirstShare b ->
  reservedRegion b2 = reservedRegion b.
Proof.
  intros Hwithin Hel Hf. unfold reservedRegion, indexOfReservedBytes, len in *.
  rewrite Hel, Hf.
  rewrite drop_app_le by lia.
  by rewrite take_app_le by (rewrite length_drop; lia).
Qed.

Lemma uint32_range (n : Z) : (0 <= uint32 n < 2 ^ 32)%Z.
Proof. unfold uint32. apply Z.mod_pos_bound. lia. Qed.

(** A second call in a row leaves the builder that the first call left. *)
Lemma MaybeWriteReservedBytes_twice (b b1 : Builder) (e : option error) :
  MaybeWriteReservedBytes b = Some (e, b1) ->
  exists e',
    MaybeWriteReservedBytes b1 = Some (e', b1)
    /\ ((forall m : Z, (0 <= m < 2 ^ 32)%Z -> byteIndexEncodable m = true ->
           reservedBytesDecodable (be32 m) = true) -> e' = e).
Proof.
  intros Hm.
  assert (b1 = b -> exists e',
            MaybeWriteReservedBytes b1 = Some (e', b1)
            /\ ((forall m : Z, (0 <= m < 2 ^ 32)%Z -> byteIndexEncodable m = true ->
                   reservedBytesDecodable (be32 m) = true) -> e' = e))
    as Hsame by (intros ->; eauto).
  destruct (decide (indexOfReservedBytes b + CompactShareReservedBytes
                    <= len (rawShareData b))) as [Hwithin | Hshort];
    [| by apply Hsame; eapply MaybeWriteReservedBytes_short].
  destruct (isCompactShare b) eqn:Hc;
    [| rewrite MaybeWriteReservedBytes_not_compact in Hm by done;
       apply Hsame; congruence].
  pose proof Hm as Hm'.
  rewrite MaybeWriteReservedBytes_within in Hm' by done.
  destruct (reservedBytesDecodable (reservedRegion b)); [| apply Hsame; congruence].
  destruct (BigEndianValue (reservedRegion b) =? 0)%Z; [| apply Hsame; congruence].
  cbv zeta in Hm'.
  destruct (byteIndexEncodable _) eqn:Henc; [| apply Hsame; congruence].
  injection Hm' as <- <-. clear Hsame.
  set (n := uint32 (Z.of_nat (len (rawShareData b)))) in *.
  assert (length (be32 n) = CompactShareReservedBytes) as Hbs by done.
  rewrite MaybeWriteReservedBytes_within;
    [| by rewrite withReservedBytes_len | done].
  cbv zeta. rewrite withReservedBytes_region, withReservedBytes_len by done.
  fold n. rewrite Henc.
  rewrite withReservedBytes_twice by done.
  destruct (reservedBytesDecodable (be32 n)) eqn:Hdec.
  - destruct (BigEndianValue (be32 n) =? 0)%Z; eauto.
  - eexists. split; [done |]. intros Hcodec.
    rewrite (Hcodec n (uint32_range _) Henc) in Hdec. done.
Qed.

(** C3 (amended). On a compact share whose buffer holds the reserved-bytes
    region: a region that does not decode makes [MaybeWriteReservedBytes]
    return the decode error; a region that decodes to a non-zero offset makes
    it a no-op that returns success; a region that decodes to zero makes it
    encode the current buffer length, returning the error of
    [NewReservedBytes] when that refuses the length and otherwise writing the
    four big-endian bytes of the length over the region and nothing else.
    The offset recorded is the buffer length at that call, and calls made
    after the buffer has grown leave it. On every builder, when a call
    returns, a second call in a row leaves the builder as the first left it,
    and returns what the first returned when every [uint32] offset that
    [NewReservedBytes] encodes decodes. *)
Theorem MaybeWriteReservedBytes_write_once (b : Builder) :
  isCompactShare b = true ->
  indexOfReservedBytes b + CompactShareReservedBytes <= len (rawShareData b) ->
  let region := reservedRegion b in
  let n := uint32 (Z.of_nat (len (rawShareData b))) in
  let written := withReservedBytes b (be32 n) in
  (reservedBytesDecodable region = false ->
     MaybeWriteReservedBytes b = Some (Some ErrMalformedReservedBytes, b))
  /\ (reservedBytesDecodable region = true ->
      BigEndianValue region <> 0%Z ->
      MaybeWriteReservedBytes b = Some (None, b))
  /\ (reservedBytesDecodable region = true ->
      BigEndianValue region = 0%Z ->
      byteIndexEncodable n = false ->
      MaybeWriteReservedBytes b = Some (Some ErrByteIndex, b))
  /\ (reservedBytesDecodable region = true ->
      BigEndianValue region = 0%Z ->
      byteIndexEncodable n = true ->
      MaybeWriteReservedBytes b = Some (None, written)
      /\ reservedRegion written = be32 n
      /\ len (rawShareData written) = len (rawShareData b)
      /\ ((Z.of_nat (len (rawShareData b)) < 2 ^ 32)%Z ->
          BigEndianValue (reservedRegion written)
          = Z.of_nat (len (rawShareData b)))
      /\ ((Z.of_nat (len (rawShareData b)) < 2 ^ 32)%Z ->
          reservedBytesDecodable (be32 n) = true ->
          forall (rawData left : list byte) (b2 : Builder),
            AddData written rawData = Some (left, b2) ->
            MaybeWriteReservedBytes b2 = Some (None, b2)
            /\ reservedRegion b2 = be32 n))
  /\ (forall (e : option error) (b1 : Builder),
        MaybeWriteReservedBytes b = Some (e, b1) ->
        exists e',
          MaybeWriteReservedBytes b1 = Some (e', b1)
          /\ ((forall m : Z, (0 <= m < 2 ^ 32)%Z -> byteIndexEncodable m = true ->
                 reservedBytesDecodable (be32 m) = true) -> e' = e)).
Proof.
  intros Hc Hwithin region n written.
  pose proof (MaybeWriteReservedBytes_within b Hwithin Hc) as Hm.
  fold region n in Hm. cbv zeta in Hm. fold written in Hm.
  assert (length (be32 n) = CompactShareReservedBytes) as Hbs by done.
  assert (reservedRegion written = be32 n) as Hreg
    by (by apply withReservedBytes_region).
  assert (len (rawShareData written) = len (rawShareData b)) as Hlen
    by (by apply withReservedBytes_len).
  assert (BigEndianValue (be32 n) = n) as Hval
    by (apply BigEndianValue_be32, uint32_range).
  split; [| split; [| split; [| split]]].
  - intros Hdec. by rewrite Hm, Hdec.
  - intros Hdec Hnz. rewrite Hm, Hdec.
    by destruct (Z.eqb_spec (BigEndianValue region) 0).
  - intros Hdec Hz Henc. by rewrite Hm, Hdec, Hz, Henc.
  - intros Hdec Hz Henc. rewrite Hm, Hdec, Hz, Henc. cbn [Z.eqb].
    assert ((Z.of_nat (len (rawShareData b)) < 2 ^ 32)%Z ->
            n = Z.of_nat (len (rawShareData b))) as Hn
      by (intros Hsmall; subst n; unfold uint32; apply Z.mod_small; lia).
    split; [done |]. split; [done |]. split; [done |]. split.
    + intros Hsmall. rewrite Hreg, Hval. auto.
    + intros Hsmall Hdec2 rawData left b2 Hadd.
      destruct (AddData_grows _ _ _ _ Hadd) as (chunk & Hel & Hf & Hcomp).
      assert (indexOfReservedBytes b2 = indexOfReservedBytes b) as Hidx
        by (unfold indexOfReservedBytes; by rewrite Hf).
      assert (reservedRegion b2 = be32 n) as Hreg2.
      { rewrite <- Hreg. eapply reservedRegion_grown; [| done..].
        by rewrite Hlen. }
      split; [| done].
      rewrite MaybeWriteReservedBytes_within.
      * rewrite Hreg2, Hdec2, Hval.
        destruct (Z.eqb_spec n 0) as [Hn0 | _]; [| done].
        rewrite Hn in Hn0 by done.
        unfold CompactShareReservedBytes in Hwithin. lia.
      * rewrite Hidx. unfold len in *. rewrite Hel, length_app.
        fold (len (rawShareData written)). unfold len. lia.
      * by rewrite Hcomp.
  - intros e b1. apply MaybeWriteReservedBytes_twice.
Qed.

End BuilderFacts.

(** * Further properties of the builder *)

Section BuilderMore.
Context `{GoRuntime} `{NamespacePkg} `{SharesPkg}.

(** ** [WriteSequenceLen] on a first share *)

Lemma WriteSequenceLen_within (b : Builder) (v : Z) :
  isFirstShare b = true ->
  NamespaceSize + ShareInfoBytes + SequenceLenBytes <= len (rawShareData b) ->
  WriteSequenceLen (Some b) v = Some (None, Some (withSequenceLen b (be32 v))).
Proof.
  intros Hf Hlen. unfold WriteSequenceLen. rewrite Hf; cbn [negb].
  unfold PutUint32. rewrite decide_True by (cbn; lia).
  cbn [mbind option_bind].
  change (drop 4 (replicate SequenceLenBytes 0%Z)) with (@nil Z).
  rewrite app_nil_r.
  rewrite store_loop_window
    by (cbn [length be32]; unfold SequenceLenBytes in *; lia).
  cbn [mbind option_bind]. rewrite Nat.add_0_r, drop_0.
  rewrite (take_ge (be32 v)) by done. done.
Qed.

(** On a first share whose buffer holds the sequence-length field,
    [WriteSequenceLen] returns success and overwrites the four bytes of the
    field, and only them, with the big-endian bytes of its argument; the
    field then reads back as the argument. *)
Theorem WriteSequenceLen_writes_field (b : Builder) (v : Z) :
  isFirstShare b = true ->
  NamespaceSize + ShareInfoBytes + SequenceLenBytes <= len (rawShareData b) ->
  (0 <= v < 2 ^ 32)%Z ->
  exists b',
    WriteSequenceLen (Some b) v = Some (None, Some b')
    /\ sequenceLenField b' = be32 v
    /\ BigEndianValue (sequenceLenField b') = v
    /\ len (rawShareData b') = len (rawShareData b)
    /\ (forall j : nat,
          j < NamespaceSize + ShareInfoBytes
          \/ NamespaceSize + ShareInfoBytes + SequenceLenBytes <= j ->
          elems (rawShareData b') !! j = elems (rawShareData b) !! j)
    /\ spare (rawShareData b') = spare (rawShareData b)
    /\ namespace b' = namespace b /\ shareVersion b' = shareVersion b
    /\ isFirstShare b' = isFirstShare b
    /\ isCompactShare b' = isCompactShare b.
Proof.
  intros Hf Hlen Hv. eexists.
  split; [by apply WriteSequenceLen_within |].
  assert (sequenceLenField (withSequenceLen b (be32 v)) = be32 v) as Hfield.
  { unfold sequenceLenField, withSequenceLen, len in *.
    cbn [set_rawShareData rawShareData elems].
    rewrite drop_app_length' by (rewrite length_take; lia).
    by rewrite take_app_length'. }
  split; [done |]. split; [by rewrite Hfield, BigEndianValue_be32 |].
  unfold withSequenceLen, len in *.
  cbn [set_rawShareData rawShareData elems spare namespace shareVersion
       isFirstShare isCompactShare].
  split.
  { rewrite !length_app, length_take, length_drop.
    cbn [length be32]. unfold SequenceLenBytes in *. lia. }
  split; [| done].
  intros j [Hj | Hj].
  - rewrite lookup_app_l by (rewrite length_take; lia).
    by rewrite lookup_take_lt.
  - rewrite lookup_app_r by (rewrite length_take; lia).
    rewrite lookup_app_r
      by (rewrite length_take; cbn [length be32];
          unfold SequenceLenBytes in *; lia).
    rewrite lookup_drop, length_take. cbn [length be32].
    f_equal. unfold SequenceLenBytes in *. lia.
Qed.

(** [WriteSequenceLen] overwrites: of two calls in a row the second decides
    the field, and the builder is the one the second call alone leaves. *)
Theorem WriteSequenceLen_last_wins (b : Builder) (v1 v2 : Z) :
  isFirstShare b = true ->
  NamespaceSize + ShareInfoBytes + SequenceLenBytes <= len (rawShareData b) ->
  exists b1 b2,
    WriteSequenceLen (Some b) v1 = Some (None, Some b1)
    /\ WriteSequenceLen (Some b1) v2 = Some (None, Some b2)
    /\ WriteSequenceLen (Some b) v2 = Some (None, Some b2).
Proof.
  intros Hf Hlen. exists (withSequenceLen b (be32 v1)), (withSequenceLen b (be32 v2)).
  split; [by apply WriteSequenceLen_within |].
  split; [| by apply WriteSequenceLen_within].
  rewrite WriteSequenceLen_within.
  - do 3 f_equal. unfold withSequenceLen, len in *.
    cbn [set_rawShareData rawShareData elems spare namespace shareVersion
         isFirstShare isCompactShare].
    rewrite take_app_length' by (rewrite length_take; lia).
    rewrite drop_app_add' by (rewrite length_take; lia).
    by rewrite (drop_app_length' (be32 v1)) by done.
  - done.
  - unfold withSequenceLen, len in *.
    cbn [set_rawShareData rawShareData elems].
    rewrite !length_app, length_take, length_drop.
    cbn [length be32]. unfold SequenceLenBytes in *. lia.
Qed.

(** On a first share, [WriteSequenceLen] returns exactly when the buffer
    holds the whole sequence-length field; on a shorter buffer it panics. *)
Theorem WriteSequenceLen_returns_iff (b : Builder) (v : Z) :
  isFirstShare b = true ->
  (is_Some (WriteSequenceLen (Some b) v)
   <-> NamespaceSize + ShareInfoBytes + SequenceLenBytes
       <= len (rawShareData b)).
Proof.
  intros Hf. split.
  - unfold WriteSequenceLen. rewrite Hf; cbn [negb].
    unfold PutUint32. rewrite decide_True by (cbn; lia).
    cbn -[store_loop].
    destruct (store_loop _ _ _ _ _) as [raw |] eqn:Hloop;
      [| by intros [? ?]].
    intros _. apply store_loop_bounds in Hloop.
    unfold ShareInfoBytes, SequenceLenBytes in *. lia.
  - intros Hlen. rewrite WriteSequenceLen_within by done. eauto.
Qed.

(** ** [FlipSequenceStart] *)

(** [FlipSequenceStart] returns exactly when the buffer reaches beyond the
    namespace; on a shorter buffer, that of the empty builder included, it
    panics. *)
Theorem FlipSequenceStart_returns_iff (b : Builder) :
  is_Some (FlipSequenceStart b) <-> NamespaceSize < len (rawShareData b).
Proof.
  unfold FlipSequenceStart, indexOfInfoBytes, len. cbv zeta. split.
  - destruct (elems (rawShareData b) !! NamespaceSize) as [x |] eqn:Hx;
      [| by intros [? ?]].
    intros _. by apply lookup_lt_Some in Hx.
  - intros Hlen.
    destruct (lookup_lt_is_Some_2 (elems (rawShareData b)) NamespaceSize)
      as [x Hx]; [lia |].
    rewrite Hx. cbn [mbind option_bind].
    rewrite store_Some by (unfold len; lia). eauto.
Qed.

(** ** [AddData] *)

(** Whatever [AddData] returns, the buffer followed by the leftover is the
    old buffer followed by the input: no byte is lost, repeated or moved. *)
Theorem AddData_conserves_bytes (b b' : Builder) (rawData left : list byte) :
  AddData b rawData = Some (left, b') ->
  elems (rawShareData b') ++ left = elems (rawShareData b) ++ rawData.
Proof.
  unfold AddData. case_decide.
  - intros [= <- <-]. cbn [set_rawShareData rawShareData].
    by rewrite elems_append, app_nil_r.
  - unfold slice_to, slice_from. case_decide; [| done].
    cbn -[append]. intros [= <- <-]. cbn [set_rawShareData rawShareData].
    by rewrite elems_append, <- app_assoc, take_drop.
Qed.

(** The leftover of a call that returns is empty exactly when the input fit
    in the remaining capacity, and a call that leaves something over has
    filled the share. *)
Theorem AddData_leftover (b b' : Builder) (rawData left : list byte) :
  AddData b rawData = Some (left, b') ->
  (left = [] <-> (Z.of_nat (length rawData) <= AvailableBytes b)%Z)
  /\ (left <> [] ->
      len (rawShareData b') = ShareSize /\ AvailableBytes b' = 0%Z).
Proof.
  unfold AddData. fold (AvailableBytes b). case_decide as Hfit.
  - intros [= <- <-]. split; [done |]. by intros [].
  - unfold slice_to, slice_from. case_decide as Hrange; [| done].
    cbn -[append]. intros [= <- <-].
    assert (length (drop (Z.to_nat (AvailableBytes b)) rawData) <> 0)
      by (rewrite length_drop; lia).
    split.
    + split; [| lia]. intros Hnil. by rewrite Hnil in *.
    + intros _. unfold AvailableBytes in *.
      cbn [set_rawShareData rawShareData].
      rewrite len_append, length_take. lia.
Qed.

(** Feeding the input in two pieces, the first of which fits, leaves the
    same leftover and the same buffer contents as feeding it at once. *)
Theorem AddData_in_two_pieces (b : Builder) (d1 d2 : list byte) :
  (Z.of_nat (length d1) <= AvailableBytes b)%Z ->
  exists b1 left b2 b12,
    AddData b d1 = Some ([], b1)
    /\ AddData b1 d2 = Some (left, b2)
    /\ AddData b (d1 ++ d2) = Some (left, b12)
    /\ elems (rawShareData b12) = elems (rawShareData b2)
    /\ elems (rawShareData b2) ++ left
       = elems (rawShareData b) ++ d1 ++ d2.
Proof.
  intros Hfit.
  assert (0 <= AvailableBytes b)%Z as Hav by lia.
  pose proof (AddData_fits b d1 Hav) as Hone. cbv zeta in Hone.
  replace (Z.to_nat (Z.min (Z.of_nat (length d1)) (AvailableBytes b)))
    with (length d1) in Hone by lia.
  rewrite drop_all, firstn_all in Hone.
  set (b1 := set_rawShareData b (append (rawShareData b) d1)) in *.
  assert (AvailableBytes b1
          = (AvailableBytes b - Z.of_nat (length d1))%Z) as Hav1.
  { unfold AvailableBytes, b1. cbn [set_rawShareData rawShareData].
    rewrite len_append. lia. }
  assert (0 <= AvailableBytes b1)%Z as Hav1' by lia.
  pose proof (AddData_fits b1 d2 Hav1') as Htwo. cbv zeta in Htwo.
  pose proof (AddData_fits b (d1 ++ d2) Hav) as Hboth. cbv zeta in Hboth.
  set (n2 := Z.to_nat (Z.min (Z.of_nat (length d2)) (AvailableBytes b1))) in *.
  replace (Z.to_nat (Z.min (Z.of_nat (length (d1 ++ d2))) (AvailableBytes b)))
    with (length d1 + n2) in Hboth by (rewrite length_app; lia).
  rewrite drop_app_add', take_app_add' in Hboth by done.
  do 4 eexists. split; [exact Hone |]. split; [exact Htwo |].
  split; [exact Hboth |].
  unfold b1. cbn [set_rawShareData rawShareData].
  rewrite !elems_append, <- !app_assoc. split; [done |].
  by rewrite take_drop.
Qed.

(** ** [IsEmptyShare] *)

(** The builder that [NewBuilder] returns for a namespace of
    [NamespaceSize] bytes is an empty share. *)
Theorem NewBuilder_IsEmptyShare (ns : Namespace) (v : Z) (f : bool)
    (b : Builder) :
  length (Bytes ns) = NamespaceSize ->
  NewBuilder ns v f = inr b ->
  IsEmptyShare b = true.
Proof.
  intros Hns Hnew.
  destruct (Z.le_gt_cases v MaxShareVersion) as [Hv | Hv];
    [| rewrite NewBuilder_rejects in Hnew by lia; done].
  destruct (NewBuilder_accepts ns v f Hv) as (raw & Hb & Hraw).
  rewrite Hb in Hnew. injection Hnew as <-.
  unfold IsEmptyShare, len.
  cbn [rawShareData isCompactShare isFirstShare]. rewrite Hraw.
  apply bool_decide_eq_true. rewrite !length_app, Hns.
  unfold ShareInfoBytes, SequenceLenBytes, CompactShareReservedBytes.
  destruct f, (IsTx ns || IsPayForBlob ns); simpl; lia.
Qed.

(** An empty share stops being one as soon as [AddData] appends a byte,
    that is on every non-empty input when there is room left. *)
Theorem AddData_makes_non_empty (b : Builder) (rawData : list byte) :
  IsEmptyShare b = true ->
  (0 < AvailableBytes b)%Z ->
  rawData <> [] ->
  exists left b',
    AddData b rawData = Some (left, b') /\ IsEmptyShare b' = false.
Proof.
  intros Hempty Hav Hdata.
  rewrite AddData_fits by lia. do 2 eexists. split; [done |].
  unfold IsEmptyShare in *.
  cbn [set_rawShareData rawShareData isCompactShare isFirstShare].
  apply bool_decide_eq_true in Hempty. apply bool_decide_eq_false.
  rewrite len_append, length_take.
  destruct rawData as [| x rawData]; [done |]. cbn [length]. lia.
Qed.

(** ** What no call changes *)

Lemma AddData_fields (b b' : Builder) (rawData left : list byte) :
  AddData b rawData = Some (left, b') -> fields b' = fields b.
Proof.
  unfold AddData. case_decide; [by intros [= _ <-] |].
  destruct (slice_to _ _) as [chunk |]; cbn -[append]; [| done].
  destruct (slice_from _ _) as [rest |]; cbn -[append]; [| done].
  by intros [= _ <-].
Qed.

Lemma MaybeWriteReservedBytes_fields (b b' : Builder) (e : option error) :
  MaybeWriteReservedBytes b = Some (e, b') -> fields b' = fields b.
Proof.
  unfold MaybeWriteReservedBytes.
  destruct (negb (isCompactShare b)); [by intros [= _ <-] |].
  destruct (isEmptyReservedBytes b) as [[err | [|]] |]; cbn -[store_loop];
    [by intros [= _ <-] | | by intros [= _ <-] | done].
  destruct (NewReservedBytes _) as [err | rb]; [by intros [= _ <-] |].
  destruct (store_loop _ _ _ _ _) as [raw |]; cbn; [| done].
  by intros [= _ <-].
Qed.

Lemma WriteSequenceLen_fields (b b' : Builder) (n : Z) (e : option error) :
  WriteSequenceLen (Some b) n = Some (e, Some b') -> fields b' = fields b.
Proof.
  unfold WriteSequenceLen.
  destruct (negb (isFirstShare b)); [by intros [= _ <-] |].
  destruct (PutUint32 _ _) as [buf |]; cbn -[store_loop]; [| done].
  destruct (store_loop _ _ _ _ _) as [raw |]; cbn; [| done].
  by intros [= _ <-].
Qed.

Lemma FlipSequenceStart_fields (b b' : Builder) :
  FlipSequenceStart b = Some b' -> fields b' = fields b.
Proof.
  unfold FlipSequenceStart.
  destruct (elems (rawShareData b) !! _) as [x |]; cbn; [| done].
  destruct (store _ _ _) as [raw |]; cbn; [| done].
  by intros [= <-].
Qed.

Lemma step_fields (b b' : Builder) (o : op) :
  step b o = Some b' -> fields b' = fields b.
Proof.
  destruct o as [rawData | rawBytes | | | n |]; cbn [step].
  - destruct (AddData b rawData) as [[left b1] |] eqn:Hadd; cbn; [| done].
    intros [= <-]. by eapply AddData_fields.
  - by intros [= <-].
  - unfold ZeroPadIfNecessary.
    destruct (zeroPadIfNecessary _ _) as [padded n]. by intros [= <-].
  - destruct (MaybeWriteReservedBytes b) as [[e b1] |] eqn:Hm; cbn; [| done].
    intros [= <-]. by eapply MaybeWriteReservedBytes_fields.
  - destruct (WriteSequenceLen (Some b) n) as [[e [b1 |]] |] eqn:Hw; cbn;
      [| done | done].
    intros [= <-]. by eapply WriteSequenceLen_fields.
  - apply FlipSequenceStart_fields.
Qed.

Lemma run_fields (ops : list op) (b b' : Builder) :
  run b ops = Some b' -> fields b' = fields b.
Proof.
  revert b. induction ops as [| o ops IH]; intros b; cbn [run].
  - by intros [= <-].
  - destruct (step b o) as [b1 |] eqn:Hstep; cbn; [| done].
    intros Hrun. rewrite (IH _ Hrun). by eapply step_fields.
Qed.

(** No sequence of calls, imports included, changes the namespace, the share
    version, the first-share flag or the share kind of a builder: they are
    those given to the constructor for as long as the builder lives. *)
Theorem run_keeps_fields (ops : list op) (b b' : Builder) :
  run b ops = Some b' ->
  namespace b' = namespace b /\ shareVersion b' = shareVersion b
  /\ isFirstShare b' = isFirstShare b /\ isCompactShare b' = isCompactShare b.
Proof.
  intros Hrun. pose proof (run_fields ops b b' Hrun) as Hf.
  unfold fields in Hf. by injection Hf.
Qed.

(** ** What only an import changes *)

Lemma store_loop_prefix (n i k : nat) (src : list byte) (dst dst' : slice) :
  store_loop n i k src dst = Some dst' ->
  take (k + i) (elems dst') = take (k + i) (elems dst).
Proof.
  revert i dst. induction n as [| n IH]; intros i dst; cbn [store_loop].
  - by intros [= <-].
  - destruct (src !! i) as [x |]; cbn -[store_loop]; [| done].
    destruct (store dst (k + i) x) as [d |] eqn:Hst; cbn -[store_loop];
      [| done].
    intros Hl. apply IH in Hl.
    unfold store in Hst. case_decide; [| done]. injection Hst as <-.
    cbn [elems] in Hl.
    assert (take (k + i) (take (k + S i) (elems dst'))
            = take (k + i) (take (k + S i) (<[k + i := x]> (elems dst))))
      as Hpre by (by rewrite Hl).
    rewrite !take_take, !Nat.min_l in Hpre by lia.
    by rewrite Hpre, take_insert_ge.
Qed.

Lemma take_shorter (p q : nat) (l l' : list byte) :
  p <= q -> take q l = take q l' -> take p l = take p l'.
Proof.
  intros Hpq Heq.
  assert (take p (take q l) = take p (take q l')) as Hpre by (by rewrite Heq).
  by rewrite !take_take, !Nat.min_l in Hpre by lia.
Qed.

Lemma step_keeps_namespace (b b' : Builder) (o : op) :
  NamespaceSize <= len (rawShareData b) ->
  is_import o = false ->
  step b o = Some b' ->
  take NamespaceSize (elems (rawShareData b'))
  = take NamespaceSize (elems (rawShareData b))
  /\ len (rawShareData b) <= len (rawShareData b').
Proof.
  intros Hlen Himp. destruct o as [rawData | rawBytes | | | n |];
    cbn [step]; try done.
  - destruct (AddData b rawData) as [[left b1] |] eqn:Hadd; cbn; [| done].
    intros [= <-].
    destruct (AddData_grows _ _ _ _ Hadd) as (chunk & Hel & _).
    unfold len in *. rewrite Hel, length_app.
    split; [by rewrite take_app_le | lia].
  - unfold ZeroPadIfNecessary, zeroPadIfNecessary.
    case_decide; intros [= <-]; cbn [snd set_rawShareData rawShareData];
      [done |].
    unfold len in *. rewrite elems_append, length_app.
    split; [by rewrite take_app_le | lia].
  - destruct (MaybeWriteReservedBytes b) as [[e b1] |] eqn:Hm; cbn; [| done].
    intros [= <-]. rewrite (MaybeWriteReservedBytes_len _ _ _ Hm).
    split; [| done]. revert Hm. unfold MaybeWriteReservedBytes.
    destruct (negb (isCompactShare b)); [by intros [= _ <-] |].
    destruct (isEmptyReservedBytes b) as [[err | [|]] |]; cbn -[store_loop];
      [by intros [= _ <-] | | by intros [= _ <-] | done].
    destruct (NewReservedBytes _) as [err | rb]; [by intros [= _ <-] |].
    destruct (store_loop _ _ _ _ _) as [raw |] eqn:Hloop; cbn; [| done].
    intros [= _ <-]. cbn [set_rawShareData rawShareData].
    apply store_loop_prefix in Hloop.
    eapply take_shorter; [| exact Hloop].
    unfold indexOfReservedBytes. destruct (isFirstShare b); lia.
  - destruct (WriteSequenceLen (Some b) n) as [[e [b1 |]] |] eqn:Hw; cbn;
      [| done | done].
    intros [= <-]. rewrite (WriteSequenceLen_len _ _ _ _ Hw).
    split; [| done]. revert Hw. unfold WriteSequenceLen.
    destruct (negb (isFirstShare b)); [by intros [= _ <-] |].
    destruct (PutUint32 _ _) as [buf |]; cbn -[store_loop]; [| done].
    destruct (store_loop _ _ _ _ _) as [raw |] eqn:Hloop; cbn; [| done].
    intros [= _ <-]. cbn [set_rawShareData rawShareData].
    apply store_loop_prefix in Hloop.
    eapply take_shorter; [| exact Hloop]. lia.
  - intros Hflip. rewrite (FlipSequenceStart_len _ _ Hflip).
    split; [| done]. revert Hflip. unfold FlipSequenceStart, indexOfInfoBytes.
    destruct (elems (rawShareData b) !! _) as [x |]; cbn; [| done].
    unfold store. case_decide; cbn; [| done]. intros [= <-].
    cbn [set_rawShareData rawShareData elems].
    by rewrite take_insert_ge.
Qed.

Lemma run_len_grows (ops : list op) (b b' : Builder) :
  NamespaceSize <= len (rawShareData b) ->
  Forall (fun o => is_import o = false) ops ->
  run b ops = Some b' ->
  len (rawShareData b) <= len (rawShareData b').
Proof.
  intros Hlen Hops. revert b Hlen.
  induction Hops as [| o ops Ho Hrest IH]; intros b Hlen; cbn [run].
  - by intros [= <-].
  - destruct (step b o) as [b1 |] eqn:Hstep; cbn; [| done].
    intros Hrun.
    destruct (step_keeps_namespace _ _ _ Hlen Ho Hstep) as [_ Hgrow].
    specialize (IH b1 ltac:(lia) Hrun). lia.
Qed.

(** From a buffer that holds the namespace, no sequence of calls without an
    import changes the first [NamespaceSize] bytes, and none shortens the
    buffer. *)
Theorem run_keeps_namespace_bytes (ops : list op) (b b' : Builder) :
  NamespaceSize <= len (rawShareData b) ->
  Forall (fun o => is_import o = false) ops ->
  run b ops = Some b' ->
  take NamespaceSize (elems (rawShareData b'))
  = take NamespaceSize (elems (rawShareData b))
  /\ len (rawShareData b) <= len (rawShareData b').
Proof.
  revert b. induction ops as [| o ops IH]; intros b Hlen Hops; cbn [run].
  - by intros [= <-].
  - inversion Hops as [| ? ? Ho Hrest]; subst.
    destruct (step b o) as [b1 |] eqn:Hstep; cbn; [| done].
    intros Hrun.
    destruct (step_keeps_namespace _ _ _ Hlen Ho Hstep) as [Hns Hgrow].
    destruct (IH b1 ltac:(lia) Hrest Hrun) as [Hns' Hgrow'].
    split; [by rewrite Hns', Hns | lia].
Qed.

(** The calls that write into the header keep [IsEmptyShare]: writing the
    sequence length, the reserved bytes or the first-share bit does not make
    a share non-empty. *)
Theorem header_writes_keep_IsEmptyShare (b b' : Builder) (o : op) :
  is_header_write o = true ->
  step b o = Some b' ->
  IsEmptyShare b' = IsEmptyShare b
  /\ AvailableBytes b' = AvailableBytes b.
Proof.
  intros Hw Hstep.
  pose proof (step_fields _ _ _ Hstep) as Hf.
  assert (len (rawShareData b') = len (rawShareData b)) as Hlen.
  { destruct o as [rawData | rawBytes | | | n |]; cbn [step] in Hstep;
      try done.
    - destruct (MaybeWriteReservedBytes b) as [[e b1] |] eqn:Hm; [| done].
      injection Hstep as <-. by eapply MaybeWriteReservedBytes_len.
    - destruct (WriteSequenceLen (Some b) n) as [[e [b1 |]] |] eqn:Hseq;
        [| done | done].
      injection Hstep as <-. by eapply WriteSequenceLen_len.
    - by apply FlipSequenceStart_len. }
  unfold fields in Hf. injection Hf as _ _ Hfirst Hcompact.
  unfold IsEmptyShare, AvailableBytes. by rewrite Hlen, Hfirst, Hcompact.
Qed.

(** ** The preallocated array *)

Lemma cap_append_fits (s : slice) (xs : list byte) (c : nat) :
  cap s = c -> len s + length xs <= c -> cap (append s xs) = c.
Proof.
  intros Hcap Hfit.
  unfold append, cap, len in *. rewrite decide_True by lia.
  cbn [elems spare]. rewrite length_app, length_drop. lia.
Qed.

Lemma store_loop_cap (n i k : nat) (src : list byte) (dst dst' : slice) :
  store_loop n i k src dst = Some dst' -> cap dst' = cap dst.
Proof.
  intros Hloop. apply store_loop_len in Hloop as [Hl Hs].
  unfold cap, len in *. by rewrite Hl, Hs.
Qed.

Lemma step_cap (b b' : Builder) (o : op) :
  cap (rawShareData b) = ShareSize ->
  is_import o = false ->
  step b o = Some b' ->
  cap (rawShareData b') = ShareSize.
Proof.
  intros Hcap Himp.
  assert (len (rawShareData b) <= ShareSize) as Hlen
    by (unfold cap, len in *; lia).
  destruct o as [rawData | rawBytes | | | n |]; cbn [step]; try done.
  - rewrite AddData_fits by (unfold AvailableBytes; lia).
    cbn. intros [= <-]. cbn [set_rawShareData rawShareData].
    apply cap_append_fits; [done |].
    rewrite length_take. unfold AvailableBytes. lia.
  - rewrite ZeroPadIfNecessary_fits by done. intros [= <-].
    cbn [snd set_rawShareData rawShareData].
    apply cap_append_fits; [done |]. rewrite length_replicate. lia.
  - unfold MaybeWriteReservedBytes.
    destruct (negb (isCompactShare b)); [by intros [= <-] |].
    destruct (isEmptyReservedBytes b) as [[err | [|]] |]; cbn -[store_loop];
      [by intros [= <-] | | by intros [= <-] | done].
    destruct (NewReservedBytes _) as [err | rb]; [by intros [= <-] |].
    destruct (store_loop _ _ _ _ _) as [raw |] eqn:Hloop; cbn; [| done].
    intros [= <-]. cbn [set_rawShareData rawShareData].
    by rewrite (store_loop_cap _ _ _ _ _ _ Hloop).
  - unfold WriteSequenceLen.
    destruct (negb (isFirstShare b)); [by intros [= <-] |].
    destruct (PutUint32 _ _) as [buf |]; cbn -[store_loop]; [| done].
    destruct (store_loop _ _ _ _ _) as [raw |] eqn:Hloop; cbn; [| done].
    intros [= <-]. cbn [set_rawShareData rawShareData].
    by rewrite (store_loop_cap _ _ _ _ _ _ Hloop).
  - unfold FlipSequenceStart.
    destruct (elems (rawShareData b) !! _) as [x |]; cbn; [| done].
    unfold store. case_decide; cbn; [| done]. intros [= <-].
    cbn [set_rawShareData rawShareData]. unfold cap in *. cbn [elems spare].
    by rewrite length_insert.
Qed.

Lemma NewBuilder_cap (ns : Namespace) (v : Z) (f : bool) (b : Builder) :
  length (Bytes ns) + ShareInfoBytes
    + (if f then SequenceLenBytes else 0)
    + (if IsTx ns || IsPayForBlob ns then CompactShareReservedBytes else 0)
    <= ShareSize ->
  NewBuilder ns v f = inr b ->
  cap (rawShareData b) = ShareSize.
Proof.
  intros Hhdr. unfold NewBuilder, init, isCompactShare_ns.
  cbn [isCompactShare].
  assert (cap (make 0 ShareSize) = ShareSize) as Hc0.
  { unfold cap, make. cbn [elems spare].
    rewrite !length_replicate. lia. }
  assert (len (make 0 ShareSize) = 0) as Hl0 by done.
  unfold ShareInfoBytes, SequenceLenBytes, CompactShareReservedBytes in *.
  destruct (IsTx ns || IsPayForBlob ns), f;
    unfold prepareCompactShare, prepareSparseShare;
    cbn [shareVersion isFirstShare namespace];
    (destruct (NewInfoByte v _) as [err | infoByte]; [done |]);
    intros [= <-]; cbn [set_rawShareData rawShareData];
    repeat first [exact Hc0 | apply cap_append_fits];
    rewrite ?len_append, ?length_replicate, ?Hl0; cbn [length]; lia.
Qed.

(** [NewBuilder] allocates an array of [ShareSize] bytes, in which the header
    is written when it fits, and no sequence of calls without an import
    makes the buffer leave that array: [append] never reallocates. *)
Theorem run_never_reallocates :
  (forall (ns : Namespace) (v : Z) (f : bool) (b : Builder),
     length (Bytes ns) + ShareInfoBytes
       + (if f then SequenceLenBytes else 0)
       + (if IsTx ns || IsPayForBlob ns then CompactShareReservedBytes else 0)
       <= ShareSize ->
     NewBuilder ns v f = inr b ->
     cap (rawShareData b) = ShareSize)
  /\ (forall (ops : list op) (b b' : Builder),
        cap (rawShareData b) = ShareSize ->
        Forall (fun o => is_import o = false) ops ->
        run b ops = Some b' ->
        cap (rawShareData b') = ShareSize
        /\ len (rawShareData b') <= ShareSize).
Proof.
  split; [apply NewBuilder_cap |].
  intros ops b b' Hcap Hops Hrun.
  assert (cap (rawShareData b') = ShareSize) as Hcap'.
  { revert b Hcap Hrun. induction Hops as [| o ops Ho Hrest IH];
      intros b Hcap; cbn [run].
    - by intros [= <-].
    - destruct (step b o) as [b1 |] eqn:Hstep; cbn; [| done].
      apply IH. by eapply step_cap. }
  split; [done |]. unfold cap, len in *. lia.
Qed.

(** ** The header that [NewBuilder] writes and the index functions *)

Lemma NewBuilder_shape (ns : Namespace) (v : Z) (f : bool) (b : Builder) :
  NewBuilder ns v f = inr b ->
  isFirstShare b = f
  /\ isCompactShare b = (IsTx ns || IsPayForBlob ns)
  /\ elems (rawShareData b)
     = Bytes ns ++ [(Z.lor (Z.shiftl v 1) (Z.b2z f) mod 256)%Z]
       ++ (if f then replicate SequenceLenBytes 0%Z else [])
       ++ (if IsTx ns || IsPayForBlob ns
           then replicate CompactShareReservedBytes 0%Z else [])
  /\ NewInfoByte v f = inr (Z.lor (Z.shiftl v 1) (Z.b2z f) mod 256)%Z.
Proof.
  intros Hnew.
  destruct (Z.le_gt_cases v MaxShareVersion) as [Hv | Hv];
    [| rewrite NewBuilder_rejects in Hnew by lia; done].
  destruct (NewBuilder_accepts ns v f Hv) as (raw & Hb & Hraw).
  rewrite Hb in Hnew. injection Hnew as <-.
  cbn [rawShareData isCompactShare isFirstShare].
  repeat split; try done.
  unfold NewInfoByte. by destruct (Z.ltb_spec MaxShareVersion v); [lia |].
Qed.

Lemma NewBuilder_compact_region (ns : Namespace) (v : Z) (f : bool)
    (b : Builder) :
  length (Bytes ns) = NamespaceSize ->
  NewBuilder ns v f = inr b ->
  isCompactShare b = true ->
  reservedRegion b = replicate CompactShareReservedBytes 0%Z
  /\ len (rawShareData b)
     = indexOfReservedBytes b + CompactShareReservedBytes.
Proof.
  intros Hns Hnew Hc.
  destruct (NewBuilder_shape ns v f b Hnew) as (Hf & Hkind & Hraw & _).
  rewrite Hc in Hkind. rewrite <- Hkind in Hraw.
  unfold reservedRegion, indexOfReservedBytes, len. rewrite Hf, Hraw.
  unfold ShareInfoBytes, SequenceLenBytes, CompactShareReservedBytes.
  rewrite <- Hns. destruct f.
  - rewrite <- !Nat.add_assoc.
    rewrite (drop_app_add' (Bytes ns) _ _ (1 + 4)) by done.
    rewrite !length_app. split; [reflexivity | simpl; lia].
  - rewrite (drop_app_add' (Bytes ns) _ _ 1) by done.
    rewrite !length_app. split; [reflexivity | simpl; lia].
Qed.

(** For a namespace of [NamespaceSize] bytes, the index functions of the
    builder point at what [NewBuilder] wrote: the namespace bytes come
    first, the info byte that [NewInfoByte] returned is at
    [indexOfInfoBytes], the sequence-length field of a first share is zero,
    and the reserved-bytes region of a compact share is zero and ends the
    buffer, so that the first byte of data comes right after it. *)
Theorem NewBuilder_fields_at_their_indices (ns : Namespace) (v : Z) (f : bool)
    (b : Builder) :
  length (Bytes ns) = NamespaceSize ->
  NewBuilder ns v f = inr b ->
  take NamespaceSize (elems (rawShareData b)) = Bytes ns
  /\ (exists infoByte,
        NewInfoByte v f = inr infoByte
        /\ elems (rawShareData b) !! indexOfInfoBytes b = Some infoByte)
  /\ (f = true -> sequenceLenField b = replicate SequenceLenBytes 0%Z)
  /\ (isCompactShare b = true ->
      reservedRegion b = replicate CompactShareReservedBytes 0%Z
      /\ len (rawShareData b)
         = indexOfReservedBytes b + CompactShareReservedBytes)
  /\ (isCompactShare b = false ->
      len (rawShareData b)
      = NamespaceSize + ShareInfoBytes + (if f then SequenceLenBytes else 0)).
Proof.
  intros Hns Hnew.
  destruct (NewBuilder_shape ns v f b Hnew) as (Hf & Hkind & Hraw & Hinfo).
  split; [by rewrite Hraw, take_app_length' |].
  split.
  { eexists. split; [exact Hinfo |].
    unfold indexOfInfoBytes. rewrite Hraw. by apply list_lookup_middle. }
  split; [| split].
  - intros ->. unfold sequenceLenField, ShareInfoBytes. rewrite Hraw, <- Hns.
    rewrite (drop_app_add' (Bytes ns) _ _ 1) by done.
    by destruct (IsTx ns || IsPayForBlob ns).
  - intros Hc. by apply (NewBuilder_compact_region ns v f).
  - intros Hc. rewrite Hc in Hkind. unfold len.
    rewrite Hraw, <- Hkind, !length_app, Hns.
    unfold ShareInfoBytes, SequenceLenBytes. destruct f; simpl; lia.
Qed.

(** ** The two header fields of a first compact share *)

Lemma windows_commute (l w1 w2 : list byte) (k1 k2 : nat) :
  k1 + length w1 <= k2 ->
  k2 + length w2 <= length l ->
  let l2 := take k2 l ++ w2 ++ drop (k2 + length w2) l in
  let l1 := take k1 l ++ w1 ++ drop (k1 + length w1) l in
  take k1 l2 ++ w1 ++ drop (k1 + length w1) l2
  = take k2 l1 ++ w2 ++ drop (k2 + length w2) l1.
Proof.
  intros H12 H2 l2 l1. subst l1 l2.
  rewrite (take_app_le (take k2 l)) by (rewrite length_take; lia).
  rewrite take_take, Nat.min_l by lia.
  rewrite (drop_app_le (take k2 l)) by (rewrite length_take; lia).
  rewrite (take_app_ge (take k1 l)) by (rewrite length_take; lia).
  rewrite (take_app_ge w1) by (rewrite length_take; lia).
  rewrite (drop_app_ge (take k1 l)) by (rewrite length_take; lia).
  rewrite (drop_app_ge w1) by (rewrite length_take; lia).
  rewrite !length_take, drop_drop.
  rewrite <- !app_assoc. f_equal. f_equal.
  rewrite take_drop_commute. f_equal; [f_equal; f_equal; lia |].
  f_equal. f_equal. lia.
Qed.

Lemma withSequenceLen_withReservedBytes (b : Builder) (ws bs : list byte) :
  isFirstShare b = true ->
  length ws = SequenceLenBytes ->
  length bs = CompactShareReservedBytes ->
  indexOfReservedBytes b + CompactShareReservedBytes
    <= len (rawShareData b) ->
  withSequenceLen (withReservedBytes b bs) ws
  = withReservedBytes (withSequenceLen b ws) bs.
Proof.
  intros Hf Hws Hbs Hwithin.
  unfold withSequenceLen, withReservedBytes, indexOfReservedBytes, len in *.
  cbn [set_rawShareData rawShareData elems spare namespace shareVersion
       isFirstShare isCompactShare].
  rewrite Hf in *. f_equal. f_equal.
  rewrite <- Hws, <- Hbs in *.
  by apply (windows_commute (elems (rawShareData b)) ws bs).
Qed.

(** On a first compact share whose buffer holds the header, writing the
    sequence length and writing the reserved bytes can be done in either
    order: the results of [MaybeWriteReservedBytes] agree and the builders
    at the end are equal. *)
Theorem header_writes_commute (b : Builder) (v : Z) :
  isFirstShare b = true ->
  isCompactShare b = true ->
  indexOfReservedBytes b + CompactShareReservedBytes
    <= len (rawShareData b) ->
  exists (e : option error) (b1 b2 b12 : Builder),
    WriteSequenceLen (Some b) v = Some (None, Some b1)
    /\ MaybeWriteReservedBytes b1 = Some (e, b12)
    /\ MaybeWriteReservedBytes b = Some (e, b2)
    /\ WriteSequenceLen (Some b2) v = Some (None, Some b12).
Proof.
  intros Hf Hc Hwithin.
  assert (indexOfReservedBytes b
          = NamespaceSize + ShareInfoBytes + SequenceLenBytes) as Hidx
    by (unfold indexOfReservedBytes; by rewrite Hf).
  assert (NamespaceSize + ShareInfoBytes + SequenceLenBytes
          <= len (rawShareData b)) as Hseq by lia.
  pose proof (WriteSequenceLen_within b v Hf Hseq) as Hw1.
  set (b1 := withSequenceLen b (be32 v)) in *.
  assert (len (rawShareData b1) = len (rawShareData b)) as Hlen1.
  { unfold b1, withSequenceLen, len in *.
    cbn [set_rawShareData rawShareData elems].
    rewrite !length_app, length_take, length_drop. cbn [length be32].
    unfold SequenceLenBytes in *. lia. }
  assert (indexOfReservedBytes b1 = indexOfReservedBytes b) as Hidx1 by done.
  assert (reservedRegion b1 = reservedRegion b) as Hreg1.
  { unfold reservedRegion. rewrite Hidx1, Hidx.
    unfold b1, withSequenceLen, len in *.
    cbn [set_rawShareData rawShareData elems].
    rewrite (drop_app_add' (take _ _)) by (rewrite length_take; lia).
    by rewrite (drop_app_length' (be32 v)). }
  pose proof (MaybeWriteReservedBytes_within b Hwithin Hc) as Hm.
  assert (indexOfReservedBytes b1 + CompactShareReservedBytes
          <= len (rawShareData b1)) as Hwithin1
    by (by rewrite Hidx1, Hlen1).
  pose proof (MaybeWriteReservedBytes_within b1 Hwithin1 Hc) as Hm1.
  rewrite Hreg1, Hlen1 in Hm1. cbv zeta in Hm, Hm1.
  destruct (reservedBytesDecodable (reservedRegion b));
    [| by exists (Some ErrMalformedReservedBytes), b1, b, b1].
  destruct (BigEndianValue (reservedRegion b) =? 0)%Z;
    [| by exists None, b1, b, b1].
  destruct (byteIndexEncodable _); [| by exists (Some ErrByteIndex), b1, b, b1].
  do 4 eexists. split; [exact Hw1 |].
  split; [exact Hm1 |]. split; [exact Hm |].
  rewrite WriteSequenceLen_within;
    [| done | by rewrite withReservedBytes_len by done].
  by rewrite withSequenceLen_withReservedBytes.
Qed.

(** ** Builders made by the constructors *)

Lemma withSequenceLen_field (b : Builder) (bs : list byte) :
  NamespaceSize + ShareInfoBytes + SequenceLenBytes <= len (rawShareData b) ->
  length bs = SequenceLenBytes ->
  sequenceLenField (withSequenceLen b bs) = bs.
Proof.
  intros Hlen Hbs. unfold sequenceLenField, withSequenceLen, len in *.
  cbn [set_rawShareData rawShareData elems].
  rewrite drop_app_length' by (rewrite length_take; lia).
  by rewrite take_app_length'.
Qed.

(** A first share made by [NewBuilder] for a namespace of [NamespaceSize]
    bytes accepts its sequence length at any later point: after any
    sequence of calls without an import, [WriteSequenceLen] returns success
    and the field reads back as the length written. *)
Theorem WriteSequenceLen_after_any_calls (ns : Namespace) (v : Z)
    (b b' : Builder) (ops : list op) (n : Z) :
  length (Bytes ns) = NamespaceSize ->
  NewBuilder ns v true = inr b ->
  Forall (fun o => is_import o = false) ops ->
  run b ops = Some b' ->
  (0 <= n < 2 ^ 32)%Z ->
  exists b'',
    WriteSequenceLen (Some b') n = Some (None, Some b'')
    /\ BigEndianValue (sequenceLenField b'') = n.
Proof.
  intros Hns Hnew Hops Hrun Hn.
  destruct (NewBuilder_shape ns v true b Hnew) as (Hf & _ & Hraw & _).
  assert (NamespaceSize + ShareInfoBytes + SequenceLenBytes
          <= len (rawShareData b)) as Hlen.
  { unfold len, ShareInfoBytes, SequenceLenBytes.
    rewrite Hraw, !length_app, Hns. simpl. lia. }
  pose proof (run_len_grows ops b b' ltac:(lia) Hops Hrun) as Hgrow.
  pose proof (run_fields ops b b' Hrun) as Hfields.
  unfold fields in Hfields. injection Hfields as _ _ Hf' _.
  assert (NamespaceSize + ShareInfoBytes + SequenceLenBytes
          <= len (rawShareData b')) as Hlen' by lia.
  eexists. split.
  - apply WriteSequenceLen_within; [by rewrite Hf', Hf | done].
  - rewrite withSequenceLen_field by done. by apply BigEndianValue_be32.
Qed.

(** On a compact share fresh from [NewBuilder], for a namespace of
    [NamespaceSize] bytes, [MaybeWriteReservedBytes] records the length of
    the header, the offset at which the first unit will start, when the
    zero region decodes and [NewReservedBytes] accepts that offset. *)
Theorem MaybeWriteReservedBytes_on_new_share (ns : Namespace) (v : Z)
    (f : bool) (b : Builder) :
  length (Bytes ns) = NamespaceSize ->
  IsTx ns || IsPayForBlob ns = true ->
  NewBuilder ns v f = inr b ->
  let headerLen :=
    NamespaceSize + ShareInfoBytes + (if f then SequenceLenBytes else 0)
    + CompactShareReservedBytes in
  reservedBytesDecodable (replicate CompactShareReservedBytes 0%Z) = true ->
  (Z.of_nat headerLen < 2 ^ 32)%Z ->
  byteIndexEncodable (Z.of_nat headerLen) = true ->
  exists b',
    MaybeWriteReservedBytes b = Some (None, b')
    /\ BigEndianValue (reservedRegion b') = Z.of_nat headerLen
    /\ len (rawShareData b') = headerLen.
Proof.
  intros Hns Hkind Hnew headerLen Hdec Hsmall Henc.
  destruct (NewBuilder_shape ns v f b Hnew) as (Hf & Hc & _).
  rewrite Hkind in Hc.
  destruct (NewBuilder_compact_region ns v f b Hns Hnew Hc) as [Hreg Hlen].
  assert (len (rawShareData b) = headerLen) as Hlen'.
  { rewrite Hlen. unfold indexOfReservedBytes, headerLen. rewrite Hf.
    destruct f; lia. }
  assert (indexOfReservedBytes b + CompactShareReservedBytes
          <= len (rawShareData b)) as Hwithin by lia.
  assert (uint32 (Z.of_nat (len (rawShareData b))) = Z.of_nat headerLen)
    as Hu by (rewrite Hlen'; unfold uint32; apply Z.mod_small; lia).
  rewrite (MaybeWriteReservedBytes_within b Hwithin Hc). cbv zeta.
  rewrite Hreg, Hdec, Hu, Henc.
  change (BigEndianValue (replicate CompactShareReservedBytes 0) =? 0)%Z
    with true.
  eexists. split; [reflexivity |].
  rewrite withReservedBytes_region, withReservedBytes_len by done.
  split; [apply BigEndianValue_be32; lia | done].
Qed.

(** The empty builder has the whole share to give: [AddData] takes the first
    [ShareSize] bytes of any input, returns the rest, and stays in the
    array that [NewEmptyBuilder] allocated. *)
Theorem NewEmptyBuilder_AddData (rawData : list byte) :
  exists b',
    AddData NewEmptyBuilder rawData = Some (drop ShareSize rawData, b')
    /\ elems (rawShareData b') = take ShareSize rawData
    /\ cap (rawShareData b') = ShareSize
    /\ fields b' = fields NewEmptyBuilder.
Proof.
  assert (cap (make 0 ShareSize) = ShareSize) as Hc0.
  { unfold cap, make. cbn [elems spare]. rewrite !length_replicate. lia. }
  assert (AvailableBytes NewEmptyBuilder = Z.of_nat ShareSize) as Hav
    by (unfold AvailableBytes, NewEmptyBuilder, len; cbn; lia).
  rewrite AddData_fits by lia. rewrite Hav.
  set (n := Z.to_nat (Z.min (Z.of_nat (length rawData)) (Z.of_nat ShareSize))).
  assert (drop n rawData = drop ShareSize rawData
          /\ take n rawData = take ShareSize rawData) as [-> ->].
  { destruct (decide (length rawData <= ShareSize)).
    - replace n with (length rawData) by lia.
      by rewrite drop_all, firstn_all, drop_ge, take_ge.
    - by replace n with ShareSize by lia. }
  eexists. split; [reflexivity |].
  cbn [set_rawShareData rawShareData NewEmptyBuilder].
  rewrite elems_append. split; [done |]. split; [| done].
  apply cap_append_fits; [done |].
  change (len (make 0 ShareSize)) with 0. rewrite length_take. lia.
Qed.

End BuilderMore.

(** * The properties on the Celestia instance *)

#[local] Existing Instances Celestia.runtime Celestia.namespaces Celestia.shares.

(** C1, as stated, fails: importing 513 bytes into the builder that
    [NewBuilder] returned leaves [AvailableBytes()] at -1. *)
Lemma AvailableBytes_negative_after_import :
  NewBuilder Celestia.TxNamespace 0 true = inr Celestia.firstCompact
  /\ run Celestia.firstCompact [OpImportRawShare Celestia.oversized]
     = Some (ImportRawShare Celestia.firstCompact Celestia.oversized)
  /\ AvailableBytes (ImportRawShare Celestia.firstCompact Celestia.oversized)
     = (-1)%Z.
Proof. split; [| split]; vm_compute; reflexivity. Qed.

Lemma AvailableBytes_invariant_witness :
  (0 <= AvailableBytes Celestia.firstCompact)%Z
  /\ (exists b',
        run Celestia.firstCompact Celestia.session = Some b'
        /\ (0 <= AvailableBytes b')%Z)
  /\ (exists b,
        @NewBuilder Celestia.runtime Celestia.namespaces Celestia.shares
          (replicate 510 0%Z) 0 false = inr b
        /\ (0 <= AvailableBytes b)%Z).
Proof.
  destruct (@AvailableBytes_invariant Celestia.runtime Celestia.namespaces
              Celestia.shares) as (_ & Hnew & Hrun).
  assert (0 <= AvailableBytes Celestia.firstCompact)%Z as Hav.
  { apply (Hnew Celestia.TxNamespace 0%Z true).
    - vm_compute. lia.
    - vm_compute. reflexivity. }
  split; [exact Hav |]. split.
  - destruct (run Celestia.firstCompact Celestia.session) as [b' |] eqn:Hr;
      [| vm_compute in Hr; discriminate Hr].
    exists b'. split; [reflexivity |].
    refine (Hrun Celestia.firstCompact Celestia.session b' Hav _ Hr).
    repeat (apply List.Forall_cons; [first [exact I | vm_compute; lia] |]).
    apply List.Forall_nil.
  - destruct (@NewBuilder Celestia.runtime Celestia.namespaces Celestia.shares
          (replicate 510 0%Z) 0 false) as [err | b] eqn:Hb;
      [vm_compute in Hb; discriminate Hb |].
    exists b. split; [reflexivity |].
    refine (Hnew (replicate 510 0%Z) 0%Z false b _ Hb).
    vm_compute. lia.
Defined.

(** C2, as stated, fails: on a buffer of 513 bytes [AvailableBytes()] is -1
    and [AddData] panics instead of appending and returning a suffix. *)
Lemma AddData_panics_when_overfull :
  AvailableBytes (ImportRawShare Celestia.contSparse Celestia.oversized)
  = (-1)%Z
  /\ AddData (ImportRawShare Celestia.contSparse Celestia.oversized)
             [1; 2; 3]%Z = None.
Proof. split; vm_compute; reflexivity. Qed.

Lemma AddData_appends_what_fits_witness :
  (0 <= AvailableBytes Celestia.firstCompact)%Z
  /\ exists b',
       AddData Celestia.firstCompact (replicate 600 9%Z)
       = Some (replicate 126 9%Z, b')
       /\ elems (rawShareData b')
          = elems (rawShareData Celestia.firstCompact) ++ replicate 474 9%Z.
Proof.
  assert (0 <= AvailableBytes Celestia.firstCompact)%Z as Hav
    by (vm_compute; discriminate).
  split; [exact Hav |].
  destruct (AddData_appends_what_fits Celestia.firstCompact
              (replicate 600 9%Z) Hav) as (b' & Hadd & Hel & _).
  exists b'. split; [exact Hadd | exact Hel].
Defined.

(** C3, as stated, fails: on a compact share whose buffer was replaced by an
    empty raw share, the region is neither left alone nor written, the call
    panics on its slice expression. *)
Lemma MaybeWriteReservedBytes_panics_on_short_buffer :
  isCompactShare (ImportRawShare Celestia.firstCompact (Slice [] [])) = true
  /\ MaybeWriteReservedBytes
       (ImportRawShare Celestia.firstCompact (Slice [] [])) = None.
Proof. split; vm_compute; reflexivity. Qed.

Lemma MaybeWriteReservedBytes_write_once_witness :
  isCompactShare Celestia.firstCompact = true
  /\ indexOfReservedBytes Celestia.firstCompact + CompactShareReservedBytes
     <= len (rawShareData Celestia.firstCompact)
  /\ MaybeWriteReservedBytes Celestia.firstCompact
     = Some (None, withReservedBytes Celestia.firstCompact [0; 0; 0; 38]%Z)
  /\ BigEndianValue
       (reservedRegion
          (withReservedBytes Celestia.firstCompact [0; 0; 0; 38]%Z))
     = 38%Z
  /\ (forall (left : list byte) (b2 : Builder),
        AddData (withReservedBytes Celestia.firstCompact [0; 0; 0; 38]%Z)
                [7; 7; 7]%Z = Some (left, b2) ->
        MaybeWriteReservedBytes b2 = Some (None, b2)
        /\ reservedRegion b2 = [0; 0; 0; 38]%Z)
  /\ MaybeWriteReservedBytes
       (withReservedBytes Celestia.firstCompact [0; 0; 0; 38]%Z)
     = Some (None, withReservedBytes Celestia.firstCompact [0; 0; 0; 38]%Z)
  /\ MaybeWriteReservedBytes
       (withReservedBytes Celestia.firstCompact [0; 0; 2; 0]%Z)
     = Some (Some ErrMalformedReservedBytes,
             withReservedBytes Celestia.firstCompact [0; 0; 2; 0]%Z)
  /\ MaybeWriteReservedBytes
       (ImportRawShare Celestia.firstCompact Celestia.fullShare)
     = Some (Some ErrByteIndex,
             ImportRawShare Celestia.firstCompact Celestia.fullShare)
  /\ (forall (e : option error) (b1 : Builder),
        MaybeWriteReservedBytes Celestia.firstCompact = Some (e, b1) ->
        MaybeWriteReservedBytes b1 = Some (e, b1)).
Proof.
  assert (isCompactShare Celestia.firstCompact = true) as Hc by reflexivity.
  assert (indexOfReservedBytes Celestia.firstCompact
          + CompactShareReservedBytes
          <= len (rawShareData Celestia.firstCompact)) as Hw
    by (vm_compute; lia).
  destruct (MaybeWriteReservedBytes_write_once Celestia.firstCompact Hc Hw)
    as (_ & _ & _ & Hwrite & Htwice).
  destruct Hwrite as (Hm & _ & _ & Hval & Hlater);
    [vm_compute; reflexivity .. |].
  split; [exact Hc |]. split; [exact Hw |]. split; [exact Hm |].
  split; [apply Hval; vm_compute; reflexivity |].
  split.
  { intros left b2 Hadd.
    apply (Hlater ltac:(vm_compute; reflexivity)
             ltac:(vm_compute; reflexivity) [7; 7; 7]%Z left b2 Hadd). }
  split.
  { destruct (MaybeWriteReservedBytes_write_once
                (withReservedBytes Celestia.firstCompact [0; 0; 0; 38]%Z))
      as (_ & Hnoop & _); [reflexivity | vm_compute; lia |].
    apply Hnoop; [vm_compute; reflexivity | vm_compute; discriminate]. }
  split.
  { destruct (MaybeWriteReservedBytes_write_once
                (withReservedBytes Celestia.firstCompact [0; 0; 2; 0]%Z))
      as (Hbad & _); [reflexivity | vm_compute; lia |].
    apply Hbad. vm_compute. reflexivity. }
  split.
  { destruct (MaybeWriteReservedBytes_write_once
                (ImportRawShare Celestia.firstCompact Celestia.fullShare))
      as (_ & _ & Hrefused & _); [reflexivity | vm_compute; lia |].
    apply Hrefused; vm_compute; reflexivity. }
  intros e b1 Hfirst.
  destruct (Htwice e b1 Hfirst) as (e' & Hsecond & Hsame).
  rewrite Hsecond. rewrite Hsame; [reflexivity |].
  intros m Hrange Henc.
  change (reservedBytesDecodable (be32 m))
    with (bool_decide (length (be32 m) = 4)
          && (BigEndianValue (be32 m) <? 512)%Z).
  change (byteIndexEncodable m) with (m <? 512)%Z in Henc.
  rewrite BigEndianValue_be32 by exact Hrange. rewrite Henc. reflexivity.
Defined.

Lemma WriteSequenceLen_not_first_witness :
  isFirstShare Celestia.contSparse = false
  /\ WriteSequenceLen (Some Celestia.contSparse) 600
     = Some (Some ErrNotFirstShare, Some Celestia.contSparse).
Proof.
  split; [reflexivity |].
  apply (WriteSequenceLen_not_first Celestia.contSparse 600). reflexivity.
Defined.

Lemma MaybeWriteReservedBytes_sparse_witness :
  isCompactShare Celestia.contSparse = false
  /\ MaybeWriteReservedBytes Celestia.contSparse
     = Some (Some ErrNotCompactShare, Celestia.contSparse).
Proof.
  split; [reflexivity |].
  apply (MaybeWriteReservedBytes_sparse Celestia.contSparse). reflexivity.
Defined.

Lemma NewBuilder_layout_witness :
  NewBuilder Celestia.TxNamespace 200 true = inl ErrInvalidVersion
  /\ (exists b,
        NewBuilder Celestia.TxNamespace 3 true = inr b
        /\ isCompactShare b = true
        /\ elems (rawShareData b)
           = Celestia.TxNamespace ++ [7%Z] ++ replicate 4 0%Z
               ++ replicate 4 0%Z)
  /\ Z.testbit 7 0 = true /\ Z.shiftr 7 1 = 3%Z.
Proof.
  destruct (@NewBuilder_layout Celestia.runtime Celestia.namespaces
              Celestia.shares Celestia.TxNamespace 200%Z true)
    as (_ & Hrej & _).
  destruct (@NewBuilder_layout Celestia.runtime Celestia.namespaces
              Celestia.shares Celestia.TxNamespace 3%Z true)
    as (_ & _ & Hacc & Hbits).
  split; [apply Hrej; vm_compute; reflexivity |].
  destruct Hacc as (b & Hnew & _ & _ & _ & Hc & Hel);
    [vm_compute; discriminate |].
  split; [exists b; split; [exact Hnew |]; split; [exact Hc | exact Hel] |].
  apply Hbits. lia.
Defined.

Lemma FlipSequenceStart_toggles_witness :
  NamespaceSize + ShareInfoBytes <= len (rawShareData Celestia.contSparse)
  /\ exists b',
       FlipSequenceStart Celestia.contSparse = Some b'
       /\ elems (rawShareData b') !! 29 = Some 1%Z
       /\ FlipSequenceStart b' = Some Celestia.contSparse.
Proof.
  assert (NamespaceSize + ShareInfoBytes
          <= len (rawShareData Celestia.contSparse)) as Hlen
    by (vm_compute; lia).
  split; [exact Hlen |].
  destruct (FlipSequenceStart_toggles Celestia.contSparse Hlen)
    as (x & b' & Hx & Hflip & _ & Hx' & Hrest).
  injection Hx as <-.
  exists b'. split; [exact Hflip |]. split; [exact Hx' |].
  apply Hrest.
Defined.

(** C8, as stated, fails: a unit of 490 bytes is shorter than the share of
    512 bytes, but the sparse continuation share, whose header takes 30
    bytes, keeps 482 of them and gives 8 back; the share is then full and
    the padding is 0, where [ShareSize - headerLen - dataLen] is -8. *)
Lemma ZeroPadIfNecessary_after_unit_that_spills :
  NewBuilder Celestia.BlobNamespace 0 false = inr Celestia.contSparse
  /\ length (replicate 490 9%Z) < ShareSize
  /\ len (rawShareData Celestia.contSparse) = 30
  /\ (r ← AddData Celestia.contSparse (replicate 490 9%Z);
      Some (length (fst r), len (rawShareData (snd r)),
            fst (ZeroPadIfNecessary (snd r))))
     = Some (8, 512, 0%Z)
  /\ (0 <> 512 - 30 - 490)%Z.
Proof.
  split; [vm_compute; reflexivity |]. split; [vm_compute; lia |].
  split; [reflexivity |]. split; [vm_compute; reflexivity | lia].
Qed.

Lemma ZeroPadIfNecessary_pads_to_ShareSize_witness :
  len (rawShareData Celestia.firstCompact) <= ShareSize
  /\ fst (ZeroPadIfNecessary Celestia.firstCompact) = 474%Z
  /\ exists b1,
       AddData Celestia.contSparse (replicate 100 9%Z) = Some ([], b1)
       /\ fst (ZeroPadIfNecessary b1) = (512 - 30 - 100)%Z.
Proof.
  destruct (@ZeroPadIfNecessary_pads_to_ShareSize Celestia.runtime
              Celestia.namespaces Celestia.shares) as (Hpad & Hunit).
  assert (len (rawShareData Celestia.firstCompact) <= ShareSize) as Hlen
    by (vm_compute; lia).
  split; [exact Hlen |]. split.
  - destruct (Hpad Celestia.firstCompact Hlen) as (b' & Hz & _).
    rewrite Hz. reflexivity.
  - destruct (Hunit Celestia.BlobNamespace 0%Z false Celestia.contSparse
                (replicate 100 9%Z)) as (b1 & Hadd & _ & Hcount);
      [vm_compute; reflexivity | vm_compute; reflexivity
       | vm_compute; discriminate |].
    exists b1. split; [exact Hadd | exact Hcount].
Defined.

(** C9, as stated, fails: after the same raw share has been imported into
    two builders that differ in their first-share flag, the flag still
    decides what [WriteSequenceLen] does. *)
Lemma ImportRawShare_keeps_the_flags :
  rawShareData (ImportRawShare Celestia.firstCompact Celestia.fullShare)
  = rawShareData (ImportRawShare Celestia.contSparse Celestia.fullShare)
  /\ fst <$> WriteSequenceLen
               (Some (ImportRawShare Celestia.firstCompact Celestia.fullShare))
               600
     = Some None
  /\ fst <$> WriteSequenceLen
               (Some (ImportRawShare Celestia.contSparse Celestia.fullShare))
               600
     = Some (Some ErrNotFirstShare).
Proof. repeat split; vm_compute; reflexivity. Qed.

Lemma AddData_in_bounds_witness :
  is_Some (AddData Celestia.firstCompact (replicate 600 9%Z))
  /\ AddData (ImportRawShare Celestia.contSparse Celestia.fullShare)
             [1; 2; 3]%Z
     = Some ([1; 2; 3]%Z,
             ImportRawShare Celestia.contSparse Celestia.fullShare)
  /\ AddData (ImportRawShare Celestia.contSparse Celestia.oversized)
             [1; 2; 3]%Z = None.
Proof.
  split; [| split].
  - apply (AddData_in_bounds Celestia.firstCompact (replicate 600 9%Z)).
    vm_compute. lia.
  - apply (AddData_in_bounds
             (ImportRawShare Celestia.contSparse Celestia.fullShare)
             [1; 2; 3]%Z).
    vm_compute. reflexivity.
  - apply (AddData_in_bounds
             (ImportRawShare Celestia.contSparse Celestia.oversized)
             [1; 2; 3]%Z).
    vm_compute. lia.
Defined.

(** ** Runs of the model *)

(** A first compact share: a unit of ten bytes, the reserved bytes written,
    a unit of five bytes, a second call that finds the region written, and
    the padding. The region records 48, the offset that followed the first
    unit, and the share is full. *)
Example compact_share_records_first_boundary :
  exists b',
    run Celestia.firstCompact
        [OpAddData (replicate 10 1%Z); OpMaybeWriteReservedBytes;
         OpAddData (replicate 5 2%Z); OpMaybeWriteReservedBytes;
         OpZeroPadIfNecessary] = Some b'
    /\ BigEndianValue (reservedRegion b') = 48%Z
    /\ len (rawShareData b') = 512
    /\ AvailableBytes b' = 0%Z.
Proof. eexists. repeat split; vm_compute; reflexivity. Qed.

(** The empty builder is sparse, and takes a whole raw share. *)
Example empty_builder_is_sparse :
  MaybeWriteReservedBytes NewEmptyBuilder
  = Some (Some ErrNotCompactShare, NewEmptyBuilder)
  /\ AvailableBytes NewEmptyBuilder = 512%Z
  /\ AvailableBytes (ImportRawShare NewEmptyBuilder Celestia.fullShare) = 0%Z.
Proof. repeat split; vm_compute; reflexivity. Qed.

(** A slice expression reaches into the capacity: on a compact share whose
    buffer was replaced by an empty slice of capacity 512, the region is
    read from the backing array, found empty, and the write that follows
    panics on its index. *)
Example reserved_region_read_from_capacity :
  isEmptyReservedBytes (ImportRawShare Celestia.firstCompact (make 0 512))
  = Some (inr true)
  /\ MaybeWriteReservedBytes
       (ImportRawShare Celestia.firstCompact (make 0 512)) = None.
Proof. split; vm_compute; reflexivity. Qed.

(** ** The further properties on the Celestia instance *)

Lemma WriteSequenceLen_writes_field_witness :
  isFirstShare Celestia.firstCompact = true
  /\ NamespaceSize + ShareInfoBytes + SequenceLenBytes
     <= len (rawShareData Celestia.firstCompact)
  /\ (0 <= 600 < 2 ^ 32)%Z
  /\ exists b',
       WriteSequenceLen (Some Celestia.firstCompact) 600
       = Some (None, Some b')
       /\ sequenceLenField b' = [0; 0; 2; 88]%Z
       /\ BigEndianValue (sequenceLenField b') = 600%Z.
Proof.
  assert (isFirstShare Celestia.firstCompact = true) as Hf by reflexivity.
  assert (NamespaceSize + ShareInfoBytes + SequenceLenBytes
          <= len (rawShareData Celestia.firstCompact)) as Hlen
    by (vm_compute; lia).
  assert (0 <= 600 < 2 ^ 32)%Z as Hv by lia.
  split; [exact Hf |]. split; [exact Hlen |]. split; [exact Hv |].
  destruct (WriteSequenceLen_writes_field Celestia.firstCompact 600 Hf Hlen Hv)
    as (b' & Hw & Hfield & Hval & _).
  exists b'. split; [exact Hw |]. split; [exact Hfield | exact Hval].
Defined.

Lemma WriteSequenceLen_last_wins_witness :
  isFirstShare Celestia.firstCompact = true
  /\ NamespaceSize + ShareInfoBytes + SequenceLenBytes
     <= len (rawShareData Celestia.firstCompact)
  /\ exists b1 b2,
       WriteSequenceLen (Some Celestia.firstCompact) 600
       = Some (None, Some b1)
       /\ WriteSequenceLen (Some b1) 700 = Some (None, Some b2)
       /\ WriteSequenceLen (Some Celestia.firstCompact) 700
          = Some (None, Some b2).
Proof.
  assert (isFirstShare Celestia.firstCompact = true) as Hf by reflexivity.
  assert (NamespaceSize + ShareInfoBytes + SequenceLenBytes
          <= len (rawShareData Celestia.firstCompact)) as Hlen
    by (vm_compute; lia).
  split; [exact Hf |]. split; [exact Hlen |].
  exact (WriteSequenceLen_last_wins Celestia.firstCompact 600 700 Hf Hlen).
Defined.

Lemma WriteSequenceLen_returns_iff_witness :
  isFirstShare Celestia.firstCompact = true
  /\ is_Some (WriteSequenceLen (Some Celestia.firstCompact) 600)
  /\ ~ is_Some (WriteSequenceLen
                  (Some (ImportRawShare Celestia.firstCompact (Slice [] [])))
                  600).
Proof.
  split; [reflexivity |]. split.
  - apply (WriteSequenceLen_returns_iff Celestia.firstCompact 600);
      [reflexivity | vm_compute; lia].
  - intros Hs.
    apply (WriteSequenceLen_returns_iff
             (ImportRawShare Celestia.firstCompact (Slice [] [])) 600)
      in Hs; [| reflexivity].
    vm_compute in Hs. lia.
Defined.

Lemma AddData_conserves_bytes_witness :
  exists left b',
    AddData Celestia.firstCompact (replicate 600 9%Z) = Some (left, b')
    /\ elems (rawShareData b') ++ left
       = elems (rawShareData Celestia.firstCompact) ++ replicate 600 9%Z.
Proof.
  destruct (AddData Celestia.firstCompact (replicate 600 9%Z))
    as [[left b'] |] eqn:Hadd; [| vm_compute in Hadd; discriminate Hadd].
  exists left, b'. split; [reflexivity |].
  exact (AddData_conserves_bytes _ _ _ _ Hadd).
Defined.

Lemma AddData_leftover_witness :
  exists left b',
    AddData Celestia.firstCompact (replicate 600 9%Z) = Some (left, b')
    /\ left <> []
    /\ len (rawShareData b') = ShareSize
    /\ AvailableBytes b' = 0%Z.
Proof.
  destruct (AddData Celestia.firstCompact (replicate 600 9%Z))
    as [[left b'] |] eqn:Hadd; [| vm_compute in Hadd; discriminate Hadd].
  exists left, b'. split; [reflexivity |].
  destruct (AddData_leftover _ _ _ _ Hadd) as [Hiff Hfull].
  assert (left <> []) as Hleft.
  { intros Hnil. apply Hiff in Hnil. vm_compute in Hnil. by apply Hnil. }
  split; [exact Hleft |]. exact (Hfull Hleft).
Defined.

Lemma AddData_in_two_pieces_witness :
  (Z.of_nat (length (replicate 10 1%Z))
   <= AvailableBytes Celestia.firstCompact)%Z
  /\ exists b1 left b2 b12,
       AddData Celestia.firstCompact (replicate 10 1%Z) = Some ([], b1)
       /\ AddData b1 (replicate 600 2%Z) = Some (left, b2)
       /\ AddData Celestia.firstCompact
                  (replicate 10 1%Z ++ replicate 600 2%Z)
          = Some (left, b12)
       /\ elems (rawShareData b12) = elems (rawShareData b2).
Proof.
  assert (Z.of_nat (length (replicate 10 1%Z))
          <= AvailableBytes Celestia.firstCompact)%Z as Hfit
    by (vm_compute; discriminate).
  split; [exact Hfit |].
  destruct (AddData_in_two_pieces Celestia.firstCompact (replicate 10 1%Z)
              (replicate 600 2%Z) Hfit)
    as (b1 & left & b2 & b12 & H1 & H2 & H12 & Hel & _).
  exists b1, left, b2, b12. repeat split; assumption.
Defined.

Lemma NewBuilder_IsEmptyShare_witness :
  length (Bytes (Celestia.TxNamespace : Namespace)) = NamespaceSize
  /\ NewBuilder Celestia.TxNamespace 0 true = inr Celestia.firstCompact
  /\ IsEmptyShare Celestia.firstCompact = true.
Proof.
  assert (length (Bytes (Celestia.TxNamespace : Namespace)) = NamespaceSize)
    as Hns by reflexivity.
  assert (NewBuilder Celestia.TxNamespace 0 true = inr Celestia.firstCompact)
    as Hnew by (vm_compute; reflexivity).
  split; [exact Hns |]. split; [exact Hnew |].
  exact (@NewBuilder_IsEmptyShare Celestia.runtime Celestia.namespaces
           Celestia.shares Celestia.TxNamespace 0%Z true
           Celestia.firstCompact Hns Hnew).
Defined.

Lemma AddData_makes_non_empty_witness :
  IsEmptyShare Celestia.firstCompact = true
  /\ (0 < AvailableBytes Celestia.firstCompact)%Z
  /\ exists left b',
       AddData Celestia.firstCompact [1; 2; 3]%Z = Some (left, b')
       /\ IsEmptyShare b' = false.
Proof.
  assert (IsEmptyShare Celestia.firstCompact = true) as He
    by (vm_compute; reflexivity).
  assert (0 < AvailableBytes Celestia.firstCompact)%Z as Hav
    by (vm_compute; reflexivity).
  split; [exact He |]. split; [exact Hav |].
  apply (AddData_makes_non_empty Celestia.firstCompact [1; 2; 3]%Z He Hav).
  discriminate.
Defined.

Lemma header_writes_keep_IsEmptyShare_witness :
  exists b',
    step Celestia.firstCompact (OpWriteSequenceLen 600) = Some b'
    /\ IsEmptyShare b' = IsEmptyShare Celestia.firstCompact
    /\ AvailableBytes b' = AvailableBytes Celestia.firstCompact.
Proof.
  destruct (step Celestia.firstCompact (OpWriteSequenceLen 600))
    as [b' |] eqn:Hstep; [| vm_compute in Hstep; discriminate Hstep].
  exists b'. split; [reflexivity |].
  exact (header_writes_keep_IsEmptyShare Celestia.firstCompact b'
           (OpWriteSequenceLen 600) eq_refl Hstep).
Defined.

Lemma run_keeps_fields_witness :
  exists b',
    run Celestia.firstCompact Celestia.session = Some b'
    /\ isFirstShare b' = true /\ isCompactShare b' = true.
Proof.
  destruct (run Celestia.firstCompact Celestia.session) as [b' |] eqn:Hr;
    [| vm_compute in Hr; discriminate Hr].
  exists b'. split; [reflexivity |].
  destruct (run_keeps_fields Celestia.session Celestia.firstCompact b' Hr)
    as (_ & _ & Hf & Hc).
  split; [exact Hf | exact Hc].
Defined.

Lemma run_keeps_namespace_bytes_witness :
  NamespaceSize <= len (rawShareData Celestia.firstCompact)
  /\ Forall (fun o => is_import o = false) Celestia.packing
  /\ exists b',
       run Celestia.firstCompact Celestia.packing = Some b'
       /\ take NamespaceSize (elems (rawShareData b')) = Celestia.TxNamespace
       /\ len (rawShareData Celestia.firstCompact) <= len (rawShareData b').
Proof.
  assert (NamespaceSize <= len (rawShareData Celestia.firstCompact)) as Hlen
    by (vm_compute; lia).
  assert (Forall (fun o => is_import o = false) Celestia.packing) as Hops
    by (repeat (apply List.Forall_cons; [reflexivity |]);
        apply List.Forall_nil).
  split; [exact Hlen |]. split; [exact Hops |].
  destruct (run Celestia.firstCompact Celestia.packing) as [b' |] eqn:Hr;
    [| vm_compute in Hr; discriminate Hr].
  exists b'. split; [reflexivity |].
  exact (run_keeps_namespace_bytes Celestia.packing Celestia.firstCompact b'
           Hlen Hops Hr).
Defined.

Lemma run_never_reallocates_witness :
  cap (rawShareData Celestia.firstCompact) = ShareSize
  /\ exists b',
       run Celestia.firstCompact Celestia.packing = Some b'
       /\ cap (rawShareData b') = ShareSize
       /\ len (rawShareData b') <= ShareSize.
Proof.
  destruct (@run_never_reallocates Celestia.runtime Celestia.namespaces
              Celestia.shares) as (Hnew & Hrun).
  assert (cap (rawShareData Celestia.firstCompact) = ShareSize) as Hcap.
  { apply (Hnew Celestia.TxNamespace 0%Z true).
    - vm_compute. lia.
    - vm_compute. reflexivity. }
  split; [exact Hcap |].
  destruct (run Celestia.firstCompact Celestia.packing) as [b' |] eqn:Hr;
    [| vm_compute in Hr; discriminate Hr].
  exists b'. split; [reflexivity |].
  refine (Hrun Celestia.packing Celestia.firstCompact b' Hcap _ Hr).
  repeat (apply List.Forall_cons; [reflexivity |]). apply List.Forall_nil.
Defined.

Lemma NewBuilder_fields_at_their_indices_witness :
  length (Bytes (Celestia.TxNamespace : Namespace)) = NamespaceSize
  /\ NewBuilder Celestia.TxNamespace 0 true = inr Celestia.firstCompact
  /\ take NamespaceSize (elems (rawShareData Celestia.firstCompact))
     = Celestia.TxNamespace
  /\ sequenceLenField Celestia.firstCompact = [0; 0; 0; 0]%Z
  /\ reservedRegion Celestia.firstCompact = [0; 0; 0; 0]%Z
  /\ len (rawShareData Celestia.firstCompact) = 34 + 4.
Proof.
  assert (length (Bytes (Celestia.TxNamespace : Namespace)) = NamespaceSize)
    as Hns by reflexivity.
  assert (NewBuilder Celestia.TxNamespace 0 true = inr Celestia.firstCompact)
    as Hnew by (vm_compute; reflexivity).
  split; [exact Hns |]. split; [exact Hnew |].
  destruct (@NewBuilder_fields_at_their_indices Celestia.runtime
              Celestia.namespaces Celestia.shares Celestia.TxNamespace 0%Z
              true Celestia.firstCompact Hns Hnew)
    as (Hbytes & _ & Hseq & Hcompact & _).
  split; [exact Hbytes |]. split; [exact (Hseq eq_refl) |].
  exact (Hcompact eq_refl).
Defined.

Lemma header_writes_commute_witness :
  isFirstShare Celestia.firstCompact = true
  /\ isCompactShare Celestia.firstCompact = true
  /\ indexOfReservedBytes Celestia.firstCompact + CompactShareReservedBytes
     <= len (rawShareData Celestia.firstCompact)
  /\ exists (e : option error) (b1 b2 b12 : Builder),
       WriteSequenceLen (Some Celestia.firstCompact) 600
       = Some (None, Some b1)
       /\ MaybeWriteReservedBytes b1 = Some (e, b12)
       /\ MaybeWriteReservedBytes Celestia.firstCompact = Some (e, b2)
       /\ WriteSequenceLen (Some b2) 600 = Some (None, Some b12).
Proof.
  assert (indexOfReservedBytes Celestia.firstCompact
          + CompactShareReservedBytes
          <= len (rawShareData Celestia.firstCompact)) as Hw
    by (vm_compute; lia).
  split; [reflexivity |]. split; [reflexivity |]. split; [exact Hw |].
  exact (header_writes_commute Celestia.firstCompact 600 eq_refl eq_refl Hw).
Defined.

Lemma WriteSequenceLen_after_any_calls_witness :
  length (Bytes (Celestia.TxNamespace : Namespace)) = NamespaceSize
  /\ NewBuilder Celestia.TxNamespace 0 true = inr Celestia.firstCompact
  /\ Forall (fun o => is_import o = false) Celestia.packing
  /\ exists b' b'',
       run Celestia.firstCompact Celestia.packing = Some b'
       /\ WriteSequenceLen (Some b') 15 = Some (None, Some b'')
       /\ BigEndianValue (sequenceLenField b'') = 15%Z.
Proof.
  assert (length (Bytes (Celestia.TxNamespace : Namespace)) = NamespaceSize)
    as Hns by reflexivity.
  assert (NewBuilder Celestia.TxNamespace 0 true = inr Celestia.firstCompact)
    as Hnew by (vm_compute; reflexivity).
  assert (Forall (fun o => is_import o = false) Celestia.packing) as Hops
    by (repeat (apply List.Forall_cons; [reflexivity |]);
        apply List.Forall_nil).
  split; [exact Hns |]. split; [exact Hnew |]. split; [exact Hops |].
  destruct (run Celestia.firstCompact Celestia.packing) as [b' |] eqn:Hr;
    [| vm_compute in Hr; discriminate Hr].
  destruct (@WriteSequenceLen_after_any_calls Celestia.runtime
              Celestia.namespaces Celestia.shares Celestia.TxNamespace 0%Z
              Celestia.firstCompact b' Celestia.packing 15%Z Hns Hnew Hops Hr
              ltac:(lia)) as (b'' & Hw & Hval).
  exists b', b''. split; [reflexivity |]. split; [exact Hw | exact Hval].
Defined.

Lemma MaybeWriteReservedBytes_on_new_share_witness :
  length (Bytes (Celestia.TxNamespace : Namespace)) = NamespaceSize
  /\ IsTx (Celestia.TxNamespace : Namespace)
     || IsPayForBlob (Celestia.TxNamespace : Namespace) = true
  /\ NewBuilder Celestia.TxNamespace 0 true = inr Celestia.firstCompact
  /\ exists b',
       MaybeWriteReservedBytes Celestia.firstCompact = Some (None, b')
       /\ BigEndianValue (reservedRegion b') = 38%Z
       /\ len (rawShareData b') = 38.
Proof.
  assert (length (Bytes (Celestia.TxNamespace : Namespace)) = NamespaceSize)
    as Hns by reflexivity.
  assert (IsTx (Celestia.TxNamespace : Namespace)
          || IsPayForBlob (Celestia.TxNamespace : Namespace) = true) as Hkind
    by (vm_compute; reflexivity).
  assert (NewBuilder Celestia.TxNamespace 0 true = inr Celestia.firstCompact)
    as Hnew by (vm_compute; reflexivity).
  split; [exact Hns |]. split; [exact Hkind |]. split; [exact Hnew |].
  apply (@MaybeWriteReservedBytes_on_new_share Celestia.runtime
           Celestia.namespaces Celestia.shares Celestia.TxNamespace 0%Z true
           Celestia.firstCompact Hns Hkind Hnew);
    vm_compute; reflexivity.
Defined.
